(** * shindo: JMA instrumental seismic intensity

    A shallow embedding of [shindo.py] and the properties its
    specification states about it.

    Arithmetic is exact: a Python [float] is read as a real number, so
    [np.sqrt], [np.exp] and [np.log10] are the real functions and the
    comparisons of the source are decided by [Rlt_dec] and its siblings.
    Rounding error, overflow and NaN are outside this model. *)

From Stdlib Require Import Reals Lra Lia List String ZArith Bool Zfloor.
From Stdlib Require Import Permutation.
Import ListNotations.

Local Open Scope R_scope.

(** ** Comparisons of floats, as booleans *)

Definition Rltb (x y : R) : bool := if Rlt_dec x y then true else false.
Definition Rleb (x y : R) : bool := if Rle_dec x y then true else false.
Definition Rgtb (x y : R) : bool := if Rgt_dec x y then true else false.
Definition Rgeb (x y : R) : bool := if Rge_dec x y then true else false.

Infix "<?" := Rltb (at level 70, no associativity) : R_scope.
Infix "<=?" := Rleb (at level 70, no associativity) : R_scope.
Infix ">?" := Rgtb (at level 70, no associativity) : R_scope.
Infix ">=?" := Rgeb (at level 70, no associativity) : R_scope.

(** ** numpy primitives on one-dimensional arrays *)

(** [a >= aval]: the element-wise comparison of an array with a scalar. *)
Definition np_ge (a : list R) (aval : R) : list bool :=
  map (fun x => x >=? aval) a.

(** [np.count_nonzero] of a boolean array. *)
Definition np_count_nonzero (b : list bool) : nat :=
  List.length (filter (fun t => t) b).

(** ** [_search_aval] *)

(** How one pass through the body of [while True] ends: with [continue]
    and a new working estimate, or with [break]. *)
Inductive loop_state : Type :=
| Continue (aval : R)
| Break (aval : R).

(** The body of the loop, lines 52 to 65. *)
Definition search_body (a : list R) (Ts : R) (aval : R) : loop_state :=
  let T_ref := 0.3 in
  let epsilon := T_ref * 0.001 in
  let T_above_aval := INR (np_count_nonzero (np_ge a aval)) * Ts in
  if T_above_aval <? T_ref - epsilon then Continue (aval - aval / 2)
  else if T_above_aval >? T_ref + epsilon then Continue (aval + aval / 2)
  else Break aval.

(** The loop, run for at most [fuel] passes; [None] when it is still
    running after that many. *)
Fixpoint search_loop (fuel : nat) (a : list R) (Ts : R) (aval : R) : option R :=
  match fuel with
  | O => None
  | S fuel' =>
      match search_body a Ts aval with
      | Continue aval' => search_loop fuel' a Ts aval'
      | Break aval' => Some aval'
      end
  end.

Definition _search_aval (fuel : nat) (a : list R) (Ts : R) : option R :=
  search_loop fuel a Ts 2000.0.

(** The working estimate at the head of the loop on pass [n] (counted
    from 0), or [None] once the loop has been left. *)
Fixpoint estimate_at (n : nat) (a : list R) (Ts : R) (aval : R) : option R :=
  match n with
  | O => Some aval
  | S n' =>
      match search_body a Ts aval with
      | Continue aval' => estimate_at n' a Ts aval'
      | Break _ => None
      end
  end.

(** ** [getShindoName] *)

(** The chain of [if]/[elif] of lines 101 to 132.  A Python function that
    falls off its last [elif] returns [None]; the result is an [option]
    to keep that path visible. *)
Definition getShindoName (I : R) (lang : string) : option string :=
  if I <? 0.5 then Some "0"%string
  else if (0.5 <=? I) && (I <? 1.5) then Some "1"%string
  else if (1.5 <=? I) && (I <? 2.5) then Some "2"%string
  else if (2.5 <=? I) && (I <? 3.5) then Some "3"%string
  else if (3.5 <=? I) && (I <? 4.5) then Some "4"%string
  else if (4.5 <=? I) && (I <? 5.0) then
    if String.eqb lang "jp"%string then Some "5弱"%string else Some "5-"%string
  else if (5.0 <=? I) && (I <? 5.5) then
    if String.eqb lang "jp"%string then Some "5強"%string else Some "5+"%string
  else if (5.5 <=? I) && (I <? 6.0) then
    if String.eqb lang "jp"%string then Some "6弱"%string else Some "6-"%string
  else if (6.0 <=? I) && (I <? 6.5) then
    if String.eqb lang "jp"%string then Some "6強"%string else Some "6+"%string
  else if I >=? 6.5 then Some "7"%string
  else None.

(** ** Arrays and the object store

    numpy arrays are objects with identity: [_filter] updates the array it
    is handed, and whoever else holds that array sees the update.  The
    store below keeps every array under a reference; a new array is
    allocated at the first unused reference. *)

(** A [complex128]: real and imaginary part. *)
Definition C : Type := (R * R)%type.

Definition Cmul (z w : C) : C :=
  (fst z * fst w - snd z * snd w, fst z * snd w + snd z * fst w).

(** The cast numpy applies to a real operand of a complex operation. *)
Definition C_of_R (x : R) : C := (x, 0).

Inductive ndarray : Type :=
| Float2D (rows : list (R * R * R))       (* shape (N, 3), float64 *)
| Complex2D (rows : list (C * C * C))     (* shape (M, 3), complex128 *)
| Float1D (xs : list R).                  (* shape (N,), float64 *)

Definition ref : Type := nat.

(** The two calls into the transform collaborator. *)
Inductive call : Type :=
| CallRfft (a : ref)
| CallIrfft (A : ref).

Record world : Type := mkWorld {
  objs : list ndarray;      (* the store, indexed by reference *)
  calls : list call         (* transform calls made so far, oldest first *)
}.

Inductive exn : Type :=
| ValueError      (* numpy.fft on zero data points; operands of unequal length *)
| TypeError       (* no array of the expected kind under the reference *)
| IndexError.     (* column index out of range *)

Inductive outcome (T : Type) : Type :=
| Returns (v : T)
| Raises (e : exn)
| Spins.          (* the search loop was still running when the fuel ran out *)

Arguments Returns {T} v.
Arguments Raises {T} e.
Arguments Spins {T}.

Definition M (T : Type) : Type := world -> world * outcome T.

Definition ret {T : Type} (v : T) : M T := fun w => (w, Returns v).

Definition bind {T U : Type} (m : M T) (k : T -> M U) : M U :=
  fun w =>
    match m w with
    | (w', Returns v) => k v w'
    | (w', Raises e) => (w', Raises e)
    | (w', Spins) => (w', Spins)
    end.

Notation "x <- m ;; k" := (bind m (fun x => k))
  (at level 61, m at next level, right associativity).
Notation "m ;; k" := (bind m (fun _ => k))
  (at level 61, right associativity).

Definition raise {T : Type} (e : exn) : M T := fun w => (w, Raises e).

Definition alloc (v : ndarray) : M ref :=
  fun w => (mkWorld (objs w ++ [v]) (calls w), Returns (List.length (objs w))).

Fixpoint update (l : list ndarray) (r : ref) (v : ndarray) : list ndarray :=
  match l, r with
  | [], _ => []
  | _ :: l', O => v :: l'
  | u :: l', S r' => u :: update l' r' v
  end.

Definition load (r : ref) : M ndarray :=
  fun w =>
    match nth_error (objs w) r with
    | Some v => (w, Returns v)
    | None => (w, Raises TypeError)
    end.

Definition store (r : ref) (v : ndarray) : M unit :=
  fun w => (mkWorld (update (objs w) r v) (calls w), Returns tt).

Definition note (c : call) : M unit :=
  fun w => (mkWorld (objs w) (calls w ++ [c]), Returns tt).

Definition load_complex2d (r : ref) : M (list (C * C * C)) :=
  v <- load r ;;
  match v with
  | Complex2D rows => ret rows
  | _ => raise TypeError
  end.

Definition load_float2d (r : ref) : M (list (R * R * R)) :=
  v <- load r ;;
  match v with
  | Float2D rows => ret rows
  | _ => raise TypeError
  end.

Definition load_float1d (r : ref) : M (list R) :=
  v <- load r ;;
  match v with
  | Float1D xs => ret xs
  | _ => raise TypeError
  end.

(** ** [_filter] *)

(** [np.arange(N)], already as floats. *)
Definition np_arange (N : nat) : list R := map INR (seq 0 N).

(** Element-wise product of two arrays of one length. *)
Definition np_mul (u v : list R) : list R :=
  map (fun p => fst p * snd p) (combine u v).

(** One row with column [c] multiplied by the real [w]. *)
Definition scale_col (c : nat) (w : R) (row : C * C * C) : C * C * C :=
  match row, c with
  | (z0, z1, z2), 0%nat => (Cmul z0 (C_of_R w), z1, z2)
  | (z0, z1, z2), 1%nat => (z0, Cmul z1 (C_of_R w), z2)
  | (z0, z1, z2), _ => (z0, z1, Cmul z2 (C_of_R w))
  end.

Definition scale_rows (c : nat) (W : list R) (rows : list (C * C * C))
  : list (C * C * C) :=
  map (fun p => scale_col c (snd p) (fst p)) (combine rows W).

(** [A[:,c] *= W]: the array under [A] is overwritten, no array is made.
    numpy refuses a column outside the three and a [W] of another length. *)
Definition imul_col (A : ref) (c : nat) (W : list R) : M unit :=
  rows <- load_complex2d A ;;
  if (2 <? c)%nat then raise IndexError
  else if negb (List.length W =? List.length rows)%nat then raise ValueError
  else store A (Complex2D (scale_rows c W rows)).

Definition _filter (A : ref) (Ts : R) : M unit :=
  rows <- load_complex2d A ;;
  let N := List.length rows in
  let k := np_arange N in
  let f := map (fun k => k / (INR N * Ts * 2)) k in
  (* Periodic-effect filter *)
  let epsilon := 0.0001 in
  let W_pe := map (fun f => sqrt (1 / (f + epsilon))) f in
  (* High-cut filter *)
  let x := map (fun f => f / 10) f in
  let W_hc := map (fun x => 1 / sqrt (
                1 + 0.694 * x ^ 2 + 0.241 * x ^ 4 + 0.0557 * x ^ 6
                + 0.009664 * x ^ 8 + 0.00134 * x ^ 10 + 0.000155 * x ^ 12)) x in
  (* Low-cut filter *)
  let W_lc := map (fun f => sqrt (1 - exp (- (f / 0.5) ^ 3))) f in
  (* Apply filter *)
  imul_col A 0 (np_mul (np_mul W_pe W_hc) W_lc) ;;
  imul_col A 1 (np_mul (np_mul W_pe W_hc) W_lc) ;;
  imul_col A 2 (np_mul (np_mul W_pe W_hc) W_lc).

(** ** numpy scalar functions used by [getShindo] *)

Definition np_log10 (x : R) : R := ln x / ln 10.

(** [np.rint]: the nearest integer, a tie going to the even one. *)
Definition np_rint (x : R) : R :=
  let n := Zfloor x in
  let d := x - IZR n in
  if d <? 0.5 then IZR n
  else if d >? 0.5 then IZR (n + 1)
  else if Z.even n then IZR n else IZR (n + 1).

(** [np.round(x, decimals)]: scale, round to the nearest integer, scale back. *)
Definition np_round (x : R) (decimals : nat) : R :=
  np_rint (x * 10 ^ decimals) / 10 ^ decimals.

Definition np_floor (x : R) : R := IZR (Zfloor x).

(** [np.sqrt(np.sum(afil**2, axis = 1))] on the rows of an (N, 3) array. *)
Definition np_square (rows : list (R * R * R)) : list (R * R * R) :=
  map (fun '(x, y, z) => (x ^ 2, y ^ 2, z ^ 2)) rows.

Definition np_sum_axis1 (rows : list (R * R * R)) : list R :=
  map (fun '(x, y, z) => x + y + z) rows.

Definition np_sqrt (xs : list R) : list R := map sqrt xs.

(** ** [getShindo]

    The transforms are numpy's, not this program's: they are parameters.
    Each takes the contents of an array and gives the contents of a new
    one, or [None] where numpy raises [ValueError]. *)

Section Pipeline.

Variable rfft : list (R * R * R) -> option (list (C * C * C)).
Variable irfft : list (C * C * C) -> option (list (R * R * R)).

(** [np.fft.rfft(a, axis = 0)]: reads [a], returns a new array. *)
Definition np_fft_rfft (a : ref) : M ref :=
  note (CallRfft a) ;;
  rows <- load_float2d a ;;
  match rfft rows with
  | Some spectrum => alloc (Complex2D spectrum)
  | None => raise ValueError
  end.

(** [np.fft.irfft(A, axis = 0)]: reads [A], returns a new array. *)
Definition np_fft_irfft (A : ref) : M ref :=
  note (CallIrfft A) ;;
  rows <- load_complex2d A ;;
  match irfft rows with
  | Some samples => alloc (Float2D samples)
  | None => raise ValueError
  end.

(** The call [_search_aval(afil_total, Ts)] on an array of the store. *)
Definition call_search_aval (fuel : nat) (a : ref) (Ts : R) : M R :=
  xs <- load_float1d a ;;
  match _search_aval fuel xs Ts with
  | Some aval => ret aval
  | None => fun w => (w, Spins)
  end.

Definition getShindo (fuel : nat) (a : ref) (Ts : R) : M R :=
  (* Perform FFT *)
  A <- np_fft_rfft a ;;
  (* Apply filter defined by JMA *)
  _filter A Ts ;;
  (* Perform inverse FFT *)
  afil <- np_fft_irfft A ;;
  afil_rows <- load_float2d afil ;;
  afil_total <- alloc (Float1D (np_sqrt (np_sum_axis1 (np_square afil_rows)))) ;;
  (* Search for the a value *)
  aval <- call_search_aval fuel afil_total Ts ;;
  (* Calculate JMA instrumental seismic intensity *)
  let I_raw := 2 * np_log10 aval + 0.94 in
  let I := np_floor (np_round I_raw 2 * 10) / 10 in
  ret I.

End Pipeline.

(** * Definitions used to state the properties *)

(** ** The search *)

(** The number of samples of [a] that are at least [v]. *)
Definition count (a : list R) (v : R) : nat := np_count_nonzero (np_ge a v).

(** The three ways out of the loop body, with the bounds [T_ref - epsilon]
    and [T_ref + epsilon] worked out: 0.2997 and 0.3003. *)
Inductive body_spec (a : list R) (Ts aval : R) : loop_state -> Prop :=
| body_too_high :
    INR (count a aval) * Ts < 0.2997 ->
    body_spec a Ts aval (Continue (aval - aval / 2))
| body_too_low :
    0.3003 < INR (count a aval) * Ts ->
    body_spec a Ts aval (Continue (aval + aval / 2))
| body_found :
    0.2997 <= INR (count a aval) * Ts <= 0.3003 ->
    body_spec a Ts aval (Break aval).

(** The time above a threshold, [count * Ts], as the loop body computes it. *)
Definition T_above (a : list R) (Ts aval : R) : R := INR (count a aval) * Ts.

(** ** The filter

    The three weighting curves and their product as the specification
    words them, functions of one frequency; [_filter] computes them on
    whole arrays. *)

(** Periodic-effect filter: [sqrt(1 / (f + 1e-4))]. *)
Definition weight_pe (f : R) : R := sqrt (1 / (f + 0.0001)).

(** The polynomial under the root of the high-cut filter. *)
Definition hc_poly (x : R) : R :=
  1 + 0.694 * x ^ 2 + 0.241 * x ^ 4 + 0.0557 * x ^ 6
  + 0.009664 * x ^ 8 + 0.00134 * x ^ 10 + 0.000155 * x ^ 12.

(** High-cut filter, in [x = f / 10]. *)
Definition weight_hc (f : R) : R := 1 / sqrt (hc_poly (f / 10)).

(** Low-cut filter: [sqrt(1 - exp(-(f / 0.5)^3))]. *)
Definition weight_lc (f : R) : R := sqrt (1 - exp (- (f / 0.5) ^ 3)).

(** Combined weight. *)
Definition weight (f : R) : R := weight_pe f * weight_hc f * weight_lc f.

(** A complex bin scaled by a real weight. *)
Definition Cscale (w : R) (z : C) : C := (w * fst z, w * snd z).

(** A row of the spectrum with its three channels scaled by one weight. *)
Definition scale_row (w : R) (row : C * C * C) : C * C * C :=
  let '(z0, z1, z2) := row in (Cscale w z0, Cscale w z1, Cscale w z2).

(** The frequency [_filter] assigns to bin [k] of a spectrum of [M] bins. *)
Definition bin_frequency (M : nat) (Ts : R) (k : nat) : R :=
  INR k / (INR M * Ts * 2).

(** The spectrum [_filter] leaves behind: row [k] scaled by the weight of
    bin [k]. *)
Definition filtered (rows : list (C * C * C)) (Ts : R) : list (C * C * C) :=
  map (fun p => scale_row (weight (bin_frequency (List.length rows) Ts (snd p))) (fst p))
    (combine rows (seq 0 (List.length rows))).

(** ** The intensity formula *)

(** [r] is [x] rounded to [d] decimals: the nearest multiple of [10^-d],
    the even one of the two when [x] is half-way. *)
Definition rounded_to (d : nat) (x r : R) : Prop :=
  exists n : Z,
    r = IZR n / 10 ^ d /\
    Rabs (x * 10 ^ d - IZR n) <= 1 / 2 /\
    (Rabs (x * 10 ^ d - IZR n) = 1 / 2 -> Z.even n = true).

(** [t] is [r] cut down to [d] decimals: the largest multiple of [10^-d]
    that is not above [r]. *)
Definition truncated_to (d : nat) (r t : R) : Prop :=
  exists m : Z, t = IZR m / 10 ^ d /\ IZR m <= r * 10 ^ d < IZR m + 1.

(** ** numpy's transforms

    An instance of the two transforms, after numpy's documentation of
    [numpy.fft.rfft] and [numpy.fft.irfft].  The properties of [getShindo]
    below hold for any transforms; this instance serves to run [getShindo]
    on given samples. *)

Definition Cadd (z w : C) : C := (fst z + fst w, snd z + snd w).

Definition Csum (zs : list C) : C := fold_right Cadd (0, 0) zs.

(** [cos t + i sin t]. *)
Definition cis (t : R) : C := (cos t, sin t).

(** Bin [k] of the discrete Fourier transform of the real samples [xs]. *)
Definition dft_bin (xs : list R) (k : nat) : C :=
  let n := List.length xs in
  Csum (map (fun p => Cmul (C_of_R (snd p))
                        (cis (- (2 * PI * INR k * INR (fst p) / INR n))))
          (combine (seq 0 n) xs)).

(** [n] real samples to [n/2 + 1] bins. *)
Definition rfft_1d (xs : list R) : list C :=
  map (dft_bin xs) (seq 0 (List.length xs / 2 + 1)).

(** What bin [k] of [m] adds to sample [j] of [n]: the bins between the
    first and the last stand for themselves and their mirror images, and
    the imaginary parts of the first and the last are not used. *)
Definition irfft_term (n m j : nat) (p : nat * C) : R :=
  let t := 2 * PI * INR (fst p) * INR j / INR n in
  if (fst p =? 0)%nat || (fst p =? m - 1)%nat then fst (snd p) * cos t
  else 2 * (fst (snd p) * cos t - snd (snd p) * sin t).

(** [m] bins to [2 (m - 1)] real samples. *)
Definition irfft_1d (Xs : list C) : list R :=
  let m := List.length Xs in
  let n := (2 * (m - 1))%nat in
  map (fun j =>
         fold_right Rplus 0 (map (irfft_term n m j) (combine (seq 0 m) Xs)) / INR n)
    (seq 0 n).

(** Column [c] of an array of three columns. *)
Definition column {T : Type} (c : nat) (rows : list (T * T * T)) : list T :=
  map (fun row => match row, c with
                  | (x, _, _), 0%nat => x
                  | (_, y, _), 1%nat => y
                  | (_, _, z), _ => z
                  end) rows.

(** The array of three columns [c0], [c1], [c2]. *)
Definition columns {T : Type} (c0 c1 c2 : list T) : list (T * T * T) :=
  map (fun p => (fst p, fst (snd p), snd (snd p))) (combine c0 (combine c1 c2)).

(** [np.fft.rfft(a, axis = 0)] on the contents of an (N, 3) array; numpy
    raises [ValueError] on zero data points. *)
Definition numpy_rfft (rows : list (R * R * R)) : option (list (C * C * C)) :=
  match rows with
  | [] => None
  | _ :: _ =>
      Some (columns (rfft_1d (column 0 rows)) (rfft_1d (column 1 rows))
              (rfft_1d (column 2 rows)))
  end.

(** [np.fft.irfft(A, axis = 0)] on the contents of an (M, 3) array; the
    output has [2 (M - 1)] samples, and numpy raises [ValueError] when
    that is zero. *)
Definition numpy_irfft (rows : list (C * C * C)) : option (list (R * R * R)) :=
  if (List.length rows <=? 1)%nat then None
  else Some (columns (irfft_1d (column 0 rows)) (irfft_1d (column 1 rows))
               (irfft_1d (column 2 rows))).

(** ** The classification *)

(** The ten classes of the JMA scale. *)
Inductive shindo_class : Type :=
| Shindo0 | Shindo1 | Shindo2 | Shindo3 | Shindo4
| Shindo5Lower | Shindo5Upper | Shindo6Lower | Shindo6Upper | Shindo7.

(** The interval of each class, after the table of the specification. *)
Definition in_class (k : shindo_class) (I : R) : Prop :=
  match k with
  | Shindo0 => I < 0.5
  | Shindo1 => 0.5 <= I < 1.5
  | Shindo2 => 1.5 <= I < 2.5
  | Shindo3 => 2.5 <= I < 3.5
  | Shindo4 => 3.5 <= I < 4.5
  | Shindo5Lower => 4.5 <= I < 5.0
  | Shindo5Upper => 5.0 <= I < 5.5
  | Shindo6Lower => 5.5 <= I < 6.0
  | Shindo6Upper => 6.0 <= I < 6.5
  | Shindo7 => 6.5 <= I
  end.

(** The labels of the table, column "Label (en)". *)
Definition label_en (k : shindo_class) : string :=
  match k with
  | Shindo0 => "0" | Shindo1 => "1" | Shindo2 => "2" | Shindo3 => "3"
  | Shindo4 => "4" | Shindo5Lower => "5-" | Shindo5Upper => "5+"
  | Shindo6Lower => "6-" | Shindo6Upper => "6+" | Shindo7 => "7"
  end%string.

(** The labels of the table, column "Label (jp)". *)
Definition label_jp (k : shindo_class) : string :=
  match k with
  | Shindo0 => "0" | Shindo1 => "1" | Shindo2 => "2" | Shindo3 => "3"
  | Shindo4 => "4" | Shindo5Lower => "5弱" | Shindo5Upper => "5強"
  | Shindo6Lower => "6弱" | Shindo6Upper => "6強" | Shindo7 => "7"
  end%string.

(** ** Definitions for the further properties *)

(** Squared modulus of a complex number. *)
Definition Cnorm2 (z : C) : R := fst z ^ 2 + snd z ^ 2.

(** Sum of two rows of a spectrum, channel by channel. *)
Definition row_add (r s : C * C * C) : C * C * C :=
  let '(x0, x1, x2) := r in
  let '(y0, y1, y2) := s in
  (Cadd x0 y0, Cadd x1 y1, Cadd x2 y2).

(** Sum of two spectra of one length, bin by bin. *)
Definition spectrum_add (rows1 rows2 : list (C * C * C)) : list (C * C * C) :=
  map (fun p => row_add (fst p) (snd p)) (combine rows1 rows2).

(** *** The test bench

    The arithmetic of the test bench, lines 155 and 161 to 164; reading
    the record and printing are left out. *)







(** *** Records and spectra of opposite sign *)

(** The record with the sign of every sample reversed. *)
Definition neg_samples (rows : list (R * R * R)) : list (R * R * R) :=
  map (fun '(x, y, z) => (- x, - y, - z)) rows.

Definition Cneg (z : C) : C := (- fst z, - snd z).

(** The spectrum with the sign of every bin reversed. *)
Definition neg_spectrum (rows : list (C * C * C)) : list (C * C * C) :=
  map (fun '(z0, z1, z2) => (Cneg z0, Cneg z1, Cneg z2)) rows.

(** * Properties *)

(** ** Comparisons *)

Lemma Rltb_true x y : (x <? y) = true <-> x < y.
Proof. unfold Rltb. destruct (Rlt_dec x y); split; intros; try easy. Qed.
Lemma Rltb_false x y : (x <? y) = false <-> y <= x.
Proof. unfold Rltb. destruct (Rlt_dec x y); split; intros; try easy; lra. Qed.
Lemma Rleb_true x y : (x <=? y) = true <-> x <= y.
Proof. unfold Rleb. destruct (Rle_dec x y); split; intros; try easy. Qed.
Lemma Rleb_false x y : (x <=? y) = false <-> y < x.
Proof. unfold Rleb. destruct (Rle_dec x y); split; intros; try easy; lra. Qed.
Lemma Rgtb_true x y : (x >? y) = true <-> y < x.
Proof. unfold Rgtb. destruct (Rgt_dec x y); split; intros; try easy. Qed.
Lemma Rgtb_false x y : (x >? y) = false <-> x <= y.
Proof. unfold Rgtb. destruct (Rgt_dec x y); split; intros; try easy; lra. Qed.
Lemma Rgeb_true x y : (x >=? y) = true <-> y <= x.
Proof. unfold Rgeb. destruct (Rge_dec x y); split; intros; try easy; lra. Qed.
Lemma Rgeb_false x y : (x >=? y) = false <-> x < y.
Proof. unfold Rgeb. destruct (Rge_dec x y); split; intros; try easy; lra. Qed.

(** Decide every comparison of the goal whose sides are known numbers. *)
Ltac Rcompare :=
  repeat match goal with
  | |- context [Rltb ?x ?y] =>
      first [ replace (Rltb x y) with true by (symmetry; apply Rltb_true; lra)
            | replace (Rltb x y) with false by (symmetry; apply Rltb_false; lra) ]
  | |- context [Rleb ?x ?y] =>
      first [ replace (Rleb x y) with true by (symmetry; apply Rleb_true; lra)
            | replace (Rleb x y) with false by (symmetry; apply Rleb_false; lra) ]
  | |- context [Rgtb ?x ?y] =>
      first [ replace (Rgtb x y) with true by (symmetry; apply Rgtb_true; lra)
            | replace (Rgtb x y) with false by (symmetry; apply Rgtb_false; lra) ]
  | |- context [Rgeb ?x ?y] =>
      first [ replace (Rgeb x y) with true by (symmetry; apply Rgeb_true; lra)
            | replace (Rgeb x y) with false by (symmetry; apply Rgeb_false; lra) ]
  end.

(** ** The search: counting and the loop body *)

Lemma count_nil v : count [] v = 0%nat.
Proof. reflexivity. Qed.

Lemma count_cons x a v :
  count (x :: a) v = ((if x >=? v then 1 else 0) + count a v)%nat.
Proof. unfold count, np_count_nonzero, np_ge. simpl. destruct (x >=? v); reflexivity. Qed.

Lemma count_antitone a v1 v2 : v1 <= v2 -> (count a v2 <= count a v1)%nat.
Proof.
  intros Hv. induction a as [|x a IH]; [reflexivity|].
  rewrite !count_cons.
  destruct (x >=? v2) eqn:E2; destruct (x >=? v1) eqn:E1; try lia.
  apply Rgeb_true in E2. apply Rgeb_false in E1. lra.
Qed.

Lemma count_pointwise A B v :
  Forall2 (fun x y => x >= y) A B -> (count B v <= count A v)%nat.
Proof.
  induction 1 as [|x y A B Hxy _ IH]; [reflexivity|].
  rewrite !count_cons.
  destruct (y >=? v) eqn:Ey; destruct (x >=? v) eqn:Ex; try lia.
  apply Rgeb_true in Ey. apply Rgeb_false in Ex. lra.
Qed.

Lemma count_zeros n v : 0 < v -> count (repeat 0 n) v = 0%nat.
Proof.
  intros Hv. induction n as [|n IH]; [reflexivity|].
  simpl repeat. rewrite count_cons, IH.
  replace (0 >=? v) with false; [reflexivity|].
  symmetry. apply Rgeb_false. exact Hv.
Qed.

Lemma search_body_spec a Ts aval : body_spec a Ts aval (search_body a Ts aval).
Proof.
  unfold search_body. fold (count a aval).
  destruct (_ <? _) eqn:E1.
  - apply Rltb_true in E1. constructor. lra.
  - apply Rltb_false in E1.
    destruct (_ >? _) eqn:E2.
    + apply Rgtb_true in E2. constructor. lra.
    + apply Rgtb_false in E2. constructor. lra.
Qed.

Lemma search_loop_S fuel a Ts aval :
  search_loop (S fuel) a Ts aval =
  match search_body a Ts aval with
  | Continue aval' => search_loop fuel a Ts aval'
  | Break aval' => Some aval'
  end.
Proof. reflexivity. Qed.

(** Run one pass of the loop on a series of known numbers. *)
Ltac search_pass :=
  rewrite search_loop_S; unfold search_body, np_count_nonzero, np_ge;
  cbn [map]; Rcompare; cbn [filter List.length INR]; Rcompare; cbv beta iota.

(** Run one pass of [estimate_at] on a series of known numbers. *)
Ltac estimate_pass :=
  unfold search_body, np_count_nonzero, np_ge;
  cbn [map]; Rcompare; cbn [filter List.length INR]; Rcompare; cbv beta iota.

Example search_body_two_first :
  search_body [100; 0] 0.3 2000.0 = Continue (2000.0 - 2000.0 / 2).
Proof. estimate_pass. reflexivity. Qed.

Example search_two_found : _search_aval 1 [3000; 0] 0.3 = Some 2000.0.
Proof. unfold _search_aval. search_pass. reflexivity. Qed.

Example search_two_low : _search_aval 6 [100; 0] 0.3 = Some 62.5.
Proof.
  unfold _search_aval. do 6 search_pass. f_equal. lra.
Qed.

(** ** The search: what it returns *)

Lemma search_loop_found fuel a Ts start v :
  search_loop fuel a Ts start = Some v ->
  0.2997 <= INR (count a v) * Ts <= 0.3003.
Proof.
  revert start. induction fuel as [|fuel IH]; intros start H; [discriminate|].
  simpl in H. destruct (search_body_spec a Ts start); eauto.
  injection H as <-. assumption.
Qed.

(** More fuel does not change what the search returns. *)
Lemma search_loop_more_fuel fuel more a Ts start v :
  search_loop fuel a Ts start = Some v ->
  search_loop (fuel + more) a Ts start = Some v.
Proof.
  revert start. induction fuel as [|fuel IH]; intros start H; [discriminate|].
  simpl in *. destruct (search_body a Ts start); auto.
Qed.

(** C2.  Whenever [_search_aval] returns, on a series [a] with sampling
    period [Ts], the value [AValue] it returns meets the convergence
    invariant: the number of samples of [a] that are at least [AValue],
    times [Ts], is within 0.0003 of 0.3. *)
Theorem search_aval_converged (fuel : nat) (a : list R) (Ts AValue : R) :
  _search_aval fuel a Ts = Some AValue ->
  Rabs (INR (np_count_nonzero (np_ge a AValue)) * Ts - 0.3) <= 0.0003.
Proof.
  intros H. apply search_loop_found in H. unfold count in H.
  apply Rabs_le. lra.
Qed.

Lemma search_aval_converged_witness :
  _search_aval 6 [100; 0] 0.3 = Some 62.5 /\
  Rabs (INR (np_count_nonzero (np_ge [100; 0] 62.5)) * 0.3 - 0.3) <= 0.0003.
Proof.
  split; [exact search_two_low|].
  exact (search_aval_converged 6 [100; 0] 0.3 62.5 search_two_low).
Defined.

Lemma search_body_positive a Ts aval aval' :
  0 < aval -> search_body a Ts aval = Continue aval' -> 0 < aval'.
Proof.
  intros Hpos H. destruct (search_body_spec a Ts aval); inversion H; lra.
Qed.

Lemma estimate_at_positive n a Ts start v :
  0 < start -> estimate_at n a Ts start = Some v -> 0 < v.
Proof.
  revert start. induction n as [|n IH]; intros start Hpos H; simpl in H.
  - injection H as <-. assumption.
  - destruct (search_body a Ts start) eqn:E; [|discriminate].
    eapply IH; [|eassumption]. eapply search_body_positive; eassumption.
Qed.

Lemma search_loop_positive fuel a Ts start v :
  0 < start -> search_loop fuel a Ts start = Some v -> 0 < v.
Proof.
  revert start. induction fuel as [|n IH]; intros start Hpos H; simpl in H;
    [discriminate|].
  destruct (search_body a Ts start) eqn:E.
  - eapply IH; [|eassumption]. eapply search_body_positive; eassumption.
  - destruct (search_body_spec a Ts start); inversion E; subst.
    injection H as <-. assumption.
Qed.

Lemma np_log10_defined x : 0 < x -> Rpower 10 (np_log10 x) = x.
Proof.
  intros Hx. unfold Rpower, np_log10.
  assert (0 < ln 10) by (rewrite <- ln_1; apply ln_increasing; lra).
  replace (ln x / ln 10 * ln 10) with (ln x) by (field; lra).
  now apply exp_ln.
Qed.

(** C10.  The working estimate of [_search_aval] is strictly positive on
    every pass of the loop: it starts at 2000.0 and each update replaces
    it by its half or by three halves of it.  So any value the search
    returns is strictly positive, and the logarithm [getShindo] takes of
    it is defined: it is the number whose power of ten is the value. *)
Theorem search_aval_positive (a : list R) (Ts : R) :
  (forall n aval, estimate_at n a Ts 2000.0 = Some aval -> 0 < aval) /\
  (forall aval aval', search_body a Ts aval = Continue aval' ->
                      aval' = aval / 2 \/ aval' = 3 * aval / 2) /\
  (forall fuel aval, _search_aval fuel a Ts = Some aval ->
                     0 < aval /\ Rpower 10 (np_log10 aval) = aval).
Proof.
  split; [|split].
  - intros n aval. apply estimate_at_positive. lra.
  - intros aval aval' H.
    destruct (search_body_spec a Ts aval); inversion H; [left|right]; lra.
  - intros fuel aval H.
    assert (0 < aval) by (eapply search_loop_positive; [|exact H]; lra).
    split; [assumption|]. now apply np_log10_defined.
Qed.

Example estimate_two_low : estimate_at 5 [100; 0] 0.3 2000.0 = Some 62.5.
Proof.
  unfold estimate_at. do 5 estimate_pass. f_equal. lra.
Qed.

Lemma search_aval_positive_witness :
  (estimate_at 5 [100; 0] 0.3 2000.0 = Some 62.5 /\ 0 < 62.5) /\
  (search_body [100; 0] 0.3 2000.0 = Continue (2000.0 - 2000.0 / 2) /\
   (2000.0 - 2000.0 / 2 = 2000.0 / 2 \/
    2000.0 - 2000.0 / 2 = 3 * 2000.0 / 2)) /\
  (_search_aval 6 [100; 0] 0.3 = Some 62.5 /\
   0 < 62.5 /\ Rpower 10 (np_log10 62.5) = 62.5).
Proof.
  destruct (search_aval_positive [100; 0] 0.3) as (Hest & Hstep & Hret).
  split; [|split].
  - split; [exact estimate_two_low|]. exact (Hest 5%nat 62.5 estimate_two_low).
  - split; [exact search_body_two_first|].
    exact (Hstep 2000.0 _ search_body_two_first).
  - split; [exact search_two_low|]. exact (Hret 6%nat 62.5 search_two_low).
Defined.

(** *** The all-zero series *)

Lemma search_body_zeros len Ts aval :
  0 < aval -> search_body (repeat 0 len) Ts aval = Continue (aval - aval / 2).
Proof.
  intros Hpos. destruct (search_body_spec (repeat 0 len) Ts aval) as [H|H|H];
    [reflexivity| |]; rewrite count_zeros in H by assumption; simpl in H; lra.
Qed.

Lemma estimate_at_zeros len Ts n start :
  0 < start -> estimate_at n (repeat 0 len) Ts start = Some (start / 2 ^ n).
Proof.
  revert start. induction n as [|n IH]; intros start Hpos; simpl.
  - f_equal. lra.
  - rewrite search_body_zeros by assumption. rewrite IH by lra.
    f_equal. assert (0 < 2 ^ n) by (apply pow_lt; lra). field. lra.
Qed.

Lemma search_loop_zeros len Ts fuel start :
  0 < start -> search_loop fuel (repeat 0 len) Ts start = None.
Proof.
  revert start. induction fuel as [|n IH]; intros start Hpos; simpl;
    [reflexivity|].
  rewrite search_body_zeros by assumption. apply IH. lra.
Qed.

(** *** A series that needs as many passes as one likes *)

Lemma search_body_single_above x aval :
  x < aval -> search_body [x] 0.3 aval = Continue (aval - aval / 2).
Proof.
  intros Hx. destruct (search_body_spec [x] 0.3 aval) as [H|H|H];
    [reflexivity| |]; exfalso; rewrite count_cons, count_nil in H;
    (replace (x >=? aval) with false in H by (symmetry; apply Rgeb_false; lra));
    simpl in H; lra.
Qed.

Lemma search_body_single_at x aval :
  aval <= x -> search_body [x] 0.3 aval = Break aval.
Proof.
  intros Hx. destruct (search_body_spec [x] 0.3 aval) as [H|H|H];
    [| |reflexivity]; exfalso; rewrite count_cons, count_nil in H;
    (replace (x >=? aval) with true in H by (symmetry; apply Rgeb_true; lra));
    simpl in H; lra.
Qed.

Lemma halve_pow x j : x * 2 ^ S j - x * 2 ^ S j / 2 = x * 2 ^ j.
Proof. simpl. field. Qed.

Lemma search_loop_single_running fuel x j :
  0 < x -> (fuel <= j)%nat ->
  search_loop fuel [x] 0.3 (x * 2 ^ j) = None.
Proof.
  intros Hx. revert j. induction fuel as [|n IH]; intros j Hj; [reflexivity|].
  destruct j as [|j]; [lia|].
  assert (Hp : 1 <= 2 ^ j) by (apply pow_R1_Rle; lra).
  rewrite search_loop_S, search_body_single_above, halve_pow by (simpl; nra).
  apply IH. lia.
Qed.

Lemma search_loop_single_found x j :
  0 < x -> search_loop (S j) [x] 0.3 (x * 2 ^ j) = Some x.
Proof.
  intros Hx. induction j as [|j IH].
  - rewrite search_loop_S, search_body_single_at by (simpl; lra).
    f_equal. simpl. lra.
  - assert (Hp : 1 <= 2 ^ j) by (apply pow_R1_Rle; lra).
    rewrite search_loop_S, search_body_single_above, halve_pow by (simpl; nra).
    exact IH.
Qed.

(** C6.  The search need not return, and no number of passes bounds it.
    On an all-zero series, whatever its length and the sampling period,
    the estimate on pass [n] is [2000 / 2^n], the body of the loop goes
    round again on every pass, and the search has not returned after any
    number of passes.  And for every bound there is a series on which the
    search returns, but only after more passes than the bound. *)
Theorem search_aval_zeros_never_found (len : nat) (Ts : R) :
  (forall n,
     estimate_at n (repeat 0 len) Ts 2000.0 = Some (2000.0 / 2 ^ n) /\
     exists aval', search_body (repeat 0 len) Ts (2000.0 / 2 ^ n) = Continue aval') /\
  (forall fuel, _search_aval fuel (repeat 0 len) Ts = None) /\
  (forall bound, exists a Ts' aval,
     _search_aval bound a Ts' = None /\ _search_aval (S bound) a Ts' = Some aval).
Proof.
  split; [|split].
  - intros n. split.
    + apply estimate_at_zeros. lra.
    + eexists. apply search_body_zeros.
      apply Rdiv_lt_0_compat; [lra|]. apply pow_lt. lra.
  - intros fuel. apply search_loop_zeros. lra.
  - intros bound.
    assert (Hp : 0 < 2 ^ bound) by (apply pow_lt; lra).
    assert (Hx : 0 < 2000.0 / 2 ^ bound) by (apply Rdiv_lt_0_compat; lra).
    exists [2000.0 / 2 ^ bound], 0.3, (2000.0 / 2 ^ bound).
    assert (E : 2000.0 = 2000.0 / 2 ^ bound * 2 ^ bound) by (field; lra).
    unfold _search_aval. split.
    + rewrite E at 2. apply search_loop_single_running; [assumption|lia].
    + rewrite E at 2. apply search_loop_single_found. assumption.
Qed.

(** ** The search: monotonicity *)

Lemma T_above_pos_Ts a Ts aval : 0 < T_above a Ts aval -> 0 < Ts.
Proof.
  unfold T_above. intros H.
  pose proof (pos_INR (count a aval)) as Hc.
  destruct (Rlt_dec 0 Ts) as [|Hn]; [assumption|]. exfalso. nra.
Qed.

Lemma T_above_antitone a Ts v1 v2 :
  0 < Ts -> v1 <= v2 -> T_above a Ts v2 <= T_above a Ts v1.
Proof.
  intros HTs Hv. unfold T_above.
  apply Rmult_le_compat_r; [lra|]. apply le_INR, count_antitone, Hv.
Qed.

Lemma T_above_pointwise A B Ts v :
  0 < Ts -> Forall2 (fun x y => x >= y) A B ->
  T_above B Ts v <= T_above A Ts v.
Proof.
  intros HTs HAB. unfold T_above.
  apply Rmult_le_compat_r; [lra|]. apply le_INR, count_pointwise, HAB.
Qed.

(** Below a threshold at which too many samples are above it, nothing is
    accepted. *)
Lemma found_above a Ts x v :
  0.3003 < T_above a Ts x -> T_above a Ts v <= 0.3003 -> x < v.
Proof.
  intros Hx Hv. destruct (Rlt_dec x v) as [|Hn]; [assumption|]. exfalso.
  assert (HTs : 0 < Ts) by (apply (T_above_pos_Ts a Ts x); lra).
  pose proof (T_above_antitone a Ts v x HTs ltac:(lra)). lra.
Qed.

(** Above a threshold at which too few samples are above it, nothing is
    accepted. *)
Lemma found_below a Ts x v :
  T_above a Ts x < 0.2997 -> 0.2997 <= T_above a Ts v -> v < x.
Proof.
  intros Hx Hv. destruct (Rlt_dec v x) as [|Hn]; [assumption|]. exfalso.
  assert (HTs : 0 < Ts) by (apply (T_above_pos_Ts a Ts v); lra).
  pose proof (T_above_antitone a Ts x v HTs ltac:(lra)). lra.
Qed.

(** C7.  Monotonicity: for two series of one length, every sample of [A]
    at least the sample of [B] in its place, and one sampling period, if
    the search returns on both then the value for [A] is at least the
    value for [B]. *)
Theorem search_aval_monotone
    (fuelA fuelB : nat) (A B : list R) (Ts vA vB : R) :
  Forall2 (fun x y => x >= y) A B ->
  _search_aval fuelA A Ts = Some vA ->
  _search_aval fuelB B Ts = Some vB ->
  vA >= vB.
Proof.
  intros HAB. unfold _search_aval. generalize 2000.0 as start.
  (* The two runs go through the same estimates until their verdicts at
     one estimate differ; from there on one run is confined above that
     estimate and the other below it. *)
  revert fuelB. induction fuelA as [|fuelA IH]; intros fuelB start HA HB;
    [discriminate|].
  destruct fuelB as [|fuelB]; [discriminate|].
  rewrite search_loop_S in HA, HB.
  destruct (search_body_spec A Ts start) as [TA|TA|TA];
    destruct (search_body_spec B Ts start) as [TB|TB|TB];
    fold (T_above A Ts start) in TA; fold (T_above B Ts start) in TB;
    try (injection HA as <-); try (injection HB as <-);
    try (apply search_loop_found in HA as FA; fold (T_above A Ts vA) in FA);
    try (apply search_loop_found in HB as FB; fold (T_above B Ts vB) in FB).
  - (* both too high *) eapply IH; eassumption.
  - (* A too high, B too low *) exfalso.
    assert (HTs : 0 < Ts) by (apply (T_above_pos_Ts B Ts start); lra).
    pose proof (T_above_pointwise A B Ts start HTs HAB). lra.
  - (* A too high, B found *) exfalso.
    assert (HTs : 0 < Ts) by (apply (T_above_pos_Ts B Ts start); lra).
    pose proof (T_above_pointwise A B Ts start HTs HAB). lra.
  - (* A too low, B too high *)
    pose proof (found_above A Ts start vA TA ltac:(lra)).
    pose proof (found_below B Ts start vB TB ltac:(lra)). lra.
  - (* both too low *) eapply IH; eassumption.
  - (* A too low, B found *)
    pose proof (found_above A Ts start vA TA ltac:(lra)). lra.
  - (* A found, B too high *)
    pose proof (found_below B Ts start vB TB ltac:(lra)). lra.
  - (* A found, B too low *) exfalso.
    assert (HTs : 0 < Ts) by (apply (T_above_pos_Ts B Ts start); lra).
    pose proof (T_above_pointwise A B Ts start HTs HAB). lra.
  - (* both found *) lra.
Qed.

Lemma search_aval_monotone_witness :
  Forall2 (fun x y => x >= y) [3000; 0] [100; 0] /\
  _search_aval 1 [3000; 0] 0.3 = Some 2000.0 /\
  _search_aval 6 [100; 0] 0.3 = Some 62.5 /\
  2000.0 >= 62.5.
Proof.
  assert (H : Forall2 (fun x y => x >= y) [3000; 0] [100; 0])
    by (repeat constructor; lra).
  split; [exact H|]. split; [exact search_two_found|].
  split; [exact search_two_low|].
  exact (search_aval_monotone 1 6 [3000; 0] [100; 0] 0.3 2000.0 62.5
           H search_two_found search_two_low).
Defined.

(** ** The store and the filter *)

Lemma Cmul_real z w : Cmul z (C_of_R w) = Cscale w z.
Proof. destruct z as [re im]. unfold Cmul, C_of_R, Cscale. simpl. f_equal; lra. Qed.

Lemma nth_error_update_eq l r v :
  (r < List.length l)%nat -> nth_error (update l r v) r = Some v.
Proof.
  revert r. induction l as [|u l IH]; intros [|r] H; simpl in *; try lia.
  - reflexivity.
  - apply IH. lia.
Qed.

Lemma nth_error_update_ne l r r' v :
  r <> r' -> nth_error (update l r v) r' = nth_error l r'.
Proof.
  revert r r'. induction l as [|u l IH]; intros [|r] [|r'] H; simpl; try easy.
  apply IH. lia.
Qed.

Lemma length_update l r v : List.length (update l r v) = List.length l.
Proof.
  revert r. induction l as [|u l IH]; intros [|r]; simpl; try easy.
  now rewrite IH.
Qed.

Lemma update_update l r v v' : update (update l r v) r v' = update l r v'.
Proof.
  revert r. induction l as [|u l IH]; intros [|r]; simpl; try easy.
  now rewrite IH.
Qed.

Lemma np_mul_map {T} (g h : T -> R) l :
  np_mul (map g l) (map h l) = map (fun x => g x * h x) l.
Proof. unfold np_mul. induction l; simpl; [reflexivity|now f_equal]. Qed.

Lemma length_scale_rows c W rows :
  List.length W = List.length rows ->
  List.length (scale_rows c W rows) = List.length rows.
Proof.
  intros H. unfold scale_rows. rewrite length_map, length_combine. lia.
Qed.

Lemma scale_rows_all W rows :
  List.length W = List.length rows ->
  scale_rows 2 W (scale_rows 1 W (scale_rows 0 W rows)) =
  map (fun p => scale_row (snd p) (fst p)) (combine rows W).
Proof.
  revert W. induction rows as [|[[z0 z1] z2] rows IH]; intros [|w W] H;
    simpl in H; try lia; [reflexivity|].
  unfold scale_rows in *. simpl. rewrite !Cmul_real. f_equal.
  apply IH. lia.
Qed.

Lemma map_combine_map_r {T U V X} (h : T -> V -> X) (g : U -> V) l l' :
  map (fun p => h (fst p) (snd p)) (combine l (map g l')) =
  map (fun p => h (fst p) (g (snd p))) (combine l l').
Proof.
  revert l'. induction l as [|x l IH]; intros [|y l']; simpl; try reflexivity.
  f_equal. apply IH.
Qed.

(** The weights [_filter] computes for a spectrum of [M] bins. *)
Lemma filter_weights M Ts :
  let f := map (fun k => k / (INR M * Ts * 2)) (np_arange M) in
  np_mul
    (np_mul (map (fun f => sqrt (1 / (f + 0.0001))) f)
       (map (fun x => 1 / sqrt (
                1 + 0.694 * x ^ 2 + 0.241 * x ^ 4 + 0.0557 * x ^ 6
                + 0.009664 * x ^ 8 + 0.00134 * x ^ 10 + 0.000155 * x ^ 12))
          (map (fun f => f / 10) f)))
    (map (fun f => sqrt (1 - exp (- (f / 0.5) ^ 3))) f)
  = map (fun k => weight (bin_frequency M Ts k)) (seq 0 M).
Proof.
  cbv zeta. unfold np_arange. rewrite !map_map, !np_mul_map. reflexivity.
Qed.

Lemma imul_col_run A c W rows w :
  nth_error (objs w) A = Some (Complex2D rows) ->
  (c <= 2)%nat -> List.length W = List.length rows ->
  imul_col A c W w =
  (mkWorld (update (objs w) A (Complex2D (scale_rows c W rows))) (calls w),
   Returns tt).
Proof.
  intros HA Hc HW. unfold imul_col, bind, load_complex2d, bind, load.
  rewrite HA. unfold ret.
  replace (2 <? c)%nat with false by (symmetry; apply Nat.ltb_ge; lia).
  rewrite HW, Nat.eqb_refl. reflexivity.
Qed.

(** What [_filter] does to the store: the array under [A], and no other,
    is replaced by its rows scaled by the weights of their bins. *)
Lemma filter_run A Ts rows w :
  nth_error (objs w) A = Some (Complex2D rows) ->
  _filter A Ts w =
  (mkWorld (update (objs w) A (Complex2D (filtered rows Ts))) (calls w),
   Returns tt).
Proof.
  intros HA. unfold _filter, filtered.
  unfold bind at 1. unfold load_complex2d at 1, bind at 1, load. rewrite HA.
  unfold ret at 1. cbv zeta.
  rewrite (filter_weights (List.length rows) Ts).
  set (W := map _ (seq 0 _)).
  assert (HW : List.length W = List.length rows)
    by (unfold W; now rewrite length_map, length_seq).
  assert (HlA : (A < List.length (objs w))%nat)
    by (apply nth_error_Some; congruence).
  assert (H0 : List.length (scale_rows 0 W rows) = List.length rows)
    by now apply length_scale_rows.
  unfold bind.
  rewrite (imul_col_run A 0 W rows) by (auto; lia).
  rewrite (imul_col_run A 1 W (scale_rows 0 W rows)); simpl objs; simpl calls;
    [|now apply nth_error_update_eq|lia|congruence].
  rewrite (imul_col_run A 2 W (scale_rows 1 W (scale_rows 0 W rows)));
    simpl objs; simpl calls;
    [|apply nth_error_update_eq; now rewrite length_update|lia
     |rewrite length_scale_rows; congruence].
  rewrite !update_update, scale_rows_all by assumption.
  do 4 f_equal. unfold W.
  exact (map_combine_map_r (fun row w => scale_row w row)
           (fun k => weight (bin_frequency (List.length rows) Ts k)) rows _).
Qed.

(** The sign in front of a power applies to the power, as in Python. *)
Example neg_pow_parse : - (2) ^ 2 = -4.
Proof. simpl. lra. Qed.

(** *** The arguments of the roots and of the division *)

Lemma hc_poly_ge_1 x : 1 <= hc_poly x.
Proof.
  unfold hc_poly.
  pose proof (pow2_ge_0 x) as H2.
  assert (H4 : 0 <= x ^ 4) by (replace (x ^ 4) with ((x ^ 2) ^ 2) by ring; apply pow2_ge_0).
  assert (H6 : 0 <= x ^ 6) by (replace (x ^ 6) with ((x ^ 3) ^ 2) by ring; apply pow2_ge_0).
  assert (H8 : 0 <= x ^ 8) by (replace (x ^ 8) with ((x ^ 4) ^ 2) by ring; apply pow2_ge_0).
  assert (H10 : 0 <= x ^ 10) by (replace (x ^ 10) with ((x ^ 5) ^ 2) by ring; apply pow2_ge_0).
  assert (H12 : 0 <= x ^ 12) by (replace (x ^ 12) with ((x ^ 6) ^ 2) by ring; apply pow2_ge_0).
  lra.
Qed.

Lemma lc_arg_ge_0 f : 0 <= f -> 0 <= 1 - exp (- (f / 0.5) ^ 3) < 1.
Proof.
  intros Hf.
  assert (H : 0 <= (f / 0.5) ^ 3) by (apply pow_le; lra).
  pose proof (exp_pos (- (f / 0.5) ^ 3)).
  destruct (Req_dec ((f / 0.5) ^ 3) 0) as [E|E].
  - rewrite E, Ropp_0, exp_0 in *. lra.
  - assert (exp (- (f / 0.5) ^ 3) < exp 0) by (apply exp_increasing; lra).
    rewrite exp_0 in *. lra.
Qed.

Lemma bin_frequency_ge_0 M Ts k : 0 < Ts -> 0 <= bin_frequency M Ts k.
Proof.
  intros HTs. unfold bin_frequency.
  pose proof (pos_INR k). pose proof (pos_INR M).
  destruct (Req_dec (INR M) 0) as [E|E].
  - rewrite E. replace (0 * Ts * 2) with 0 by ring. unfold Rdiv.
    rewrite Rinv_0. lra.
  - apply Rmult_le_pos; [assumption|]. apply Rlt_le, Rinv_0_lt_compat. nra.
Qed.

(** *** Two frequencies with different weights *)

Lemma weight_sqr f :
  0 <= f ->
  weight f * weight f =
  1 / (f + 0.0001) * (1 - exp (- (f / 0.5) ^ 3)) / hc_poly (f / 10).
Proof.
  intros Hf. unfold weight, weight_pe, weight_hc, weight_lc.
  pose proof (hc_poly_ge_1 (f / 10)) as HP.
  pose proof (lc_arg_ge_0 f Hf) as HL.
  assert (Ha : 0 <= 1 / (f + 0.0001))
    by (apply Rlt_le, Rdiv_lt_0_compat; lra).
  set (a := 1 / (f + 0.0001)) in *.
  set (b := hc_poly (f / 10)) in *.
  set (c := 1 - exp _) in *.
  assert (Hsb : 0 < sqrt b) by (apply sqrt_lt_R0; lra).
  transitivity ((sqrt a * sqrt a) * (sqrt c * sqrt c) / (sqrt b * sqrt b)).
  - field. lra.
  - rewrite !sqrt_sqrt by lra. reflexivity.
Qed.

Lemma weight_sqr_four_thirds : weight (4 / 3) * weight (4 / 3) < 3 / 4.
Proof.
  rewrite weight_sqr by lra.
  pose proof (hc_poly_ge_1 (4 / 3 / 10)) as HP.
  pose proof (lc_arg_ge_0 (4 / 3) ltac:(lra)) as HL.
  set (b := hc_poly _) in *. set (c := 1 - exp _) in *.
  assert (Hb : 0 < / b <= 1).
  { split; [apply Rinv_0_lt_compat; lra|].
    rewrite <- Rinv_1. apply Rinv_le_contravar; lra. }
  unfold Rdiv. set (ib := / b) in *.
  assert (Ha : 0 < 1 * / (4 * / 3 + 0.0001) < 3 / 4).
  { split; [apply Rdiv_lt_0_compat; lra|].
    apply Rmult_lt_reg_r with (4 * / 3 + 0.0001); [lra|].
    unfold Rdiv. rewrite Rmult_assoc, Rinv_l by lra. lra. }
  set (a := 1 * / _) in *.
  assert (Hac : 0 <= a * c <= a) by nra.
  assert (Hacb : a * c * ib <= a * c) by nra.
  lra.
Qed.

Lemma exp_minus_8 : exp (- (8)) <= 1 / 9.
Proof.
  rewrite exp_Ropp. pose proof (exp_ineq1_le 8).
  unfold Rdiv. rewrite Rmult_1_l. apply Rinv_le_contravar; lra.
Qed.

Lemma weight_sqr_one : 7 / 8 < weight 1 * weight 1.
Proof.
  rewrite weight_sqr by lra.
  replace (- (1 / 0.5) ^ 3) with (- (8)) by (simpl; lra).
  pose proof exp_minus_8 as HE. pose proof (exp_pos (- 8)) as HE0.
  set (e := exp (- (8))) in *.
  assert (HP : 1 <= hc_poly (1 / 10) <= 1.007).
  { split; [apply hc_poly_ge_1|]. unfold hc_poly. simpl. lra. }
  set (b := hc_poly _) in *.
  apply Rmult_lt_reg_r with b; [lra|].
  unfold Rdiv at 2. rewrite Rmult_assoc, Rinv_l, Rmult_1_r by lra.
  replace (1 / (1 + 0.0001)) with (10000 / 10001) by lra.
  nra.
Qed.

Lemma weight_four_thirds_neq_one : weight (4 / 3) <> weight 1.
Proof.
  intros E. pose proof weight_sqr_four_thirds. pose proof weight_sqr_one.
  rewrite E in *. lra.
Qed.

(** *** The rows after the filter *)

Lemma length_filtered rows Ts : List.length (filtered rows Ts) = List.length rows.
Proof.
  unfold filtered. rewrite length_map, length_combine, length_seq. lia.
Qed.

Lemma nth_error_combine_seq {T} (l : list T) s k x :
  nth_error l k = Some x ->
  nth_error (combine l (seq s (List.length l))) k = Some (x, (s + k)%nat).
Proof.
  revert s k. induction l as [|y l IH]; intros s [|k] H; simpl in *;
    try discriminate.
  - injection H as ->. now rewrite Nat.add_0_r.
  - rewrite (IH (S s) k H). do 2 f_equal. lia.
Qed.

Lemma nth_error_filtered rows Ts k row :
  nth_error rows k = Some row ->
  nth_error (filtered rows Ts) k =
  Some (scale_row (weight (bin_frequency (List.length rows) Ts k)) row).
Proof.
  intros H. unfold filtered.
  rewrite nth_error_map, (nth_error_combine_seq rows 0 k row H). reflexivity.
Qed.

(** C8.  For [Ts > 0] the filter returns normally and leaves, in place of
    the spectrum it was given, the spectrum with every bin of all three
    channels scaled by one real weight [W(f) = W_pe(f) * W_hc(f) * W_lc(f)]
    of the bin's frequency [f], the three curves being those of the
    specification; and at every such [f] the divisions and roots of the
    three curves are taken of numbers in their domain. *)
Theorem filter_scales_by_shared_weight
    (w : world) (A : ref) (rows : list (C * C * C)) (Ts : R) :
  nth_error (objs w) A = Some (Complex2D rows) ->
  0 < Ts ->
  exists rows',
    _filter A Ts w =
      (mkWorld (update (objs w) A (Complex2D rows')) (calls w), Returns tt) /\
    List.length rows' = List.length rows /\
    forall k z0 z1 z2,
      nth_error rows k = Some (z0, z1, z2) ->
      let f := bin_frequency (List.length rows) Ts k in
      nth_error rows' k =
        Some (Cscale (weight f) z0, Cscale (weight f) z1, Cscale (weight f) z2) /\
      weight f =
        sqrt (1 / (f + 0.0001)) * (1 / sqrt (hc_poly (f / 10)))
        * sqrt (1 - exp (- (f / 0.5) ^ 3)) /\
      0 <= f /\
      0 < f + 0.0001 /\
      1 <= hc_poly (f / 10) /\
      0 <= 1 - exp (- (f / 0.5) ^ 3).
Proof.
  intros HA HTs. exists (filtered rows Ts).
  split; [now apply filter_run|]. split; [apply length_filtered|].
  intros k z0 z1 z2 Hk f.
  pose proof (bin_frequency_ge_0 (List.length rows) Ts k HTs) as Hf.
  fold f in Hf.
  split; [unfold f; now rewrite (nth_error_filtered _ _ _ _ Hk)|].
  split; [reflexivity|]. split; [assumption|]. split; [lra|].
  split; [apply hc_poly_ge_1|]. apply lc_arg_ge_0. assumption.
Qed.

(** C1, as amended.  The weight applied to bin [k] is taken at the
    frequency [k / (M * Ts * 2)] with [M] the number of bins of the
    spectrum handed to the filter, that is [N/2 + 1] for [N] samples in
    the time domain: for every spectrum of [N/2 + 1] bins and every
    [Ts > 0], bin [k] of each channel is scaled by
    [W(k / ((N/2 + 1) * Ts * 2))]. *)
Theorem filter_bin_frequency
    (N : nat) (w : world) (A : ref) (rows : list (C * C * C)) (Ts : R)
    (k : nat) (row : C * C * C) :
  nth_error (objs w) A = Some (Complex2D rows) ->
  List.length rows = (N / 2 + 1)%nat ->
  0 < Ts ->
  nth_error rows k = Some row ->
  exists rows',
    _filter A Ts w =
      (mkWorld (update (objs w) A (Complex2D rows')) (calls w), Returns tt) /\
    nth_error rows' k =
      Some (scale_row (weight (INR k / (INR (N / 2 + 1) * Ts * 2))) row).
Proof.
  intros HA HN HTs Hk. exists (filtered rows Ts).
  split; [now apply filter_run|].
  rewrite (nth_error_filtered _ _ _ _ Hk), HN. reflexivity.
Qed.

(** C1 as stated fails.  For [N = 4] samples the spectrum has 3 bins; with
    [Ts = 1/8] the filter weighs bin 1 at [1 / (3 * (1/8) * 2) = 4/3], not
    at [1 / (4 * (1/8) * 2) = 1], and the two weights differ. *)
Lemma filter_bin_frequency_counterexample :
  let one : C * C * C := ((1, 0), (1, 0), (1, 0)) in
  let N := 4%nat in
  let spectrum := [one; one; one] in
  let Ts := 1 / 8 in
  let w := mkWorld [Complex2D spectrum] [] in
  List.length spectrum = (N / 2 + 1)%nat /\
  0 < Ts /\
  exists w' rows',
    _filter 0%nat Ts w = (w', Returns tt) /\
    nth_error (objs w') 0%nat = Some (Complex2D rows') /\
    nth_error rows' 1%nat <>
      Some (scale_row (weight (INR 1 / (INR N * Ts * 2))) one).
Proof.
  cbv zeta. split; [reflexivity|]. split; [lra|].
  eexists. eexists. split; [apply filter_run; reflexivity|].
  split; [reflexivity|].
  rewrite (nth_error_filtered _ _ 1%nat ((1, 0), (1, 0), (1, 0)))
    by reflexivity.
  unfold bin_frequency. simpl List.length. simpl INR.
  replace (1 / ((1 + 1 + 1) * (1 / 8) * 2)) with (4 / 3) by lra.
  replace (1 / ((1 + 1 + 1 + 1) * (1 / 8) * 2)) with 1 by lra.
  intros E. injection E as E _. unfold Cscale in E. simpl in E.
  apply weight_four_thirds_neq_one. lra.
Qed.

Lemma filter_scales_by_shared_weight_witness :
  let rows := [((1, 0), (0, 1), (2, 2)); ((3, 0), (0, 0), (1, 1))] in
  let w := mkWorld [Complex2D rows] [] in
  nth_error (objs w) 0 = Some (Complex2D rows) /\
  0 < 0.01 /\
  exists rows',
    _filter 0%nat 0.01 w =
      (mkWorld (update (objs w) 0%nat (Complex2D rows')) (calls w), Returns tt) /\
    List.length rows' = 2%nat /\
    nth_error rows' 1 =
      Some (Cscale (weight (bin_frequency 2 0.01 1)) (3, 0),
            Cscale (weight (bin_frequency 2 0.01 1)) (0, 0),
            Cscale (weight (bin_frequency 2 0.01 1)) (1, 1)).
Proof.
  cbv zeta. split; [reflexivity|]. split; [lra|].
  destruct (filter_scales_by_shared_weight
              (mkWorld [Complex2D [((1, 0), (0, 1), (2, 2)); ((3, 0), (0, 0), (1, 1))]] [])
              0%nat [((1, 0), (0, 1), (2, 2)); ((3, 0), (0, 0), (1, 1))] 0.01
              eq_refl ltac:(lra)) as (rows' & Hrun & Hlen & Hrows).
  exists rows'. split; [assumption|]. split; [assumption|].
  exact (proj1 (Hrows 1%nat (3, 0) (0, 0) (1, 1) eq_refl)).
Defined.

Lemma filter_bin_frequency_witness :
  let one : C * C * C := ((1, 0), (1, 0), (1, 0)) in
  let w := mkWorld [Complex2D [one; one; one]] [] in
  nth_error (objs w) 0 = Some (Complex2D [one; one; one]) /\
  List.length [one; one; one] = (4 / 2 + 1)%nat /\
  0 < 1 / 8 /\
  exists rows',
    _filter 0%nat (1 / 8) w =
      (mkWorld (update (objs w) 0%nat (Complex2D rows')) (calls w), Returns tt) /\
    nth_error rows' 1%nat =
      Some (scale_row (weight (INR 1 / (INR (4 / 2 + 1) * (1 / 8) * 2))) one).
Proof.
  cbv zeta. split; [reflexivity|]. split; [reflexivity|]. split; [lra|].
  exact (filter_bin_frequency 4
           (mkWorld [Complex2D [((1, 0), (1, 0), (1, 0)); ((1, 0), (1, 0), (1, 0));
                                ((1, 0), (1, 0), (1, 0))]] [])
           0%nat _ (1 / 8) 1%nat ((1, 0), (1, 0), (1, 0))
           eq_refl eq_refl ltac:(lra) eq_refl).
Defined.

(** ** [getShindo] *)

Lemma search_loop_nonpositive_Ts fuel a Ts start :
  Ts <= 0 -> search_loop fuel a Ts start = None.
Proof.
  intros HTs. revert start. induction fuel as [|fuel IH]; intros start;
    [reflexivity|].
  rewrite search_loop_S.
  pose proof (pos_INR (count a start)) as Hc.
  destruct (search_body_spec a Ts start) as [H|H|H]; [apply IH| |]; nra.
Qed.

Lemma np_rint_spec x :
  exists n : Z,
    np_rint x = IZR n /\
    Rabs (x - IZR n) <= 1 / 2 /\
    (Rabs (x - IZR n) = 1 / 2 -> Z.even n = true).
Proof.
  unfold np_rint. pose proof (Zfloor_bound x) as [Hlo Hhi].
  set (n := Zfloor x) in *.
  destruct (x - IZR n <? 0.5) eqn:E1.
  - apply Rltb_true in E1. exists n. split; [reflexivity|].
    rewrite Rabs_pos_eq by lra. split; lra.
  - apply Rltb_false in E1. destruct (x - IZR n >? 0.5) eqn:E2.
    + apply Rgtb_true in E2. exists (n + 1)%Z. split; [reflexivity|].
      rewrite plus_IZR. rewrite Rabs_left by lra. split; lra.
    + apply Rgtb_false in E2. destruct (Z.even n) eqn:E3.
      * exists n. split; [reflexivity|]. rewrite Rabs_pos_eq by lra.
        split; [lra|]. intros _. exact E3.
      * exists (n + 1)%Z. split; [reflexivity|]. rewrite plus_IZR.
        rewrite Rabs_left by lra. split; [lra|]. intros _.
        rewrite Z.add_1_r, Z.even_succ, <- Z.negb_even, E3. reflexivity.
Qed.

Lemma np_round_spec x d : rounded_to d x (np_round x d).
Proof.
  unfold np_round, rounded_to.
  destruct (np_rint_spec (x * 10 ^ d)) as (n & -> & H1 & H2).
  exists n. auto.
Qed.

Lemma np_floor_spec r : truncated_to 1 r (np_floor (r * 10) / 10).
Proof.
  unfold truncated_to, np_floor. exists (Zfloor (r * 10)).
  replace (10 ^ 1) with 10 by (simpl; lra).
  split; [reflexivity|]. apply Zfloor_bound.
Qed.

Lemma nth_error_snoc {T} (l : list T) x : nth_error (l ++ [x]) (List.length l) = Some x.
Proof. rewrite nth_error_app2, Nat.sub_diag by lia. reflexivity. Qed.

Lemma update_snoc l v v' : update (l ++ [v]) (List.length l) v' = l ++ [v'].
Proof. induction l as [|u l IH]; simpl; [reflexivity|now rewrite IH]. Qed.

Section PipelineProperties.

Variable rfft : list (R * R * R) -> option (list (C * C * C)).
Variable irfft : list (C * C * C) -> option (list (R * R * R)).

(** The whole run of [getShindo] on an (N, 3) array of floats, told as
    what is in the store and in the record of calls at each way out. *)
Lemma getShindo_run fuel a Ts w rows :
  nth_error (objs w) a = Some (Float2D rows) ->
  getShindo rfft irfft fuel a Ts w =
  match rfft rows with
  | None => (mkWorld (objs w) (calls w ++ [CallRfft a]), Raises ValueError)
  | Some spectrum =>
      let A := List.length (objs w) in
      match irfft (filtered spectrum Ts) with
      | None =>
          (mkWorld (objs w ++ [Complex2D (filtered spectrum Ts)])
             ((calls w ++ [CallRfft a]) ++ [CallIrfft A]),
           Raises ValueError)
      | Some afil =>
          let afil_total := np_sqrt (np_sum_axis1 (np_square afil)) in
          let w' :=
            mkWorld
              (((objs w ++ [Complex2D (filtered spectrum Ts)])
                  ++ [Float2D afil]) ++ [Float1D afil_total])
              ((calls w ++ [CallRfft a]) ++ [CallIrfft A]) in
          match _search_aval fuel afil_total Ts with
          | None => (w', Spins)
          | Some aval =>
              (w', Returns (np_floor (np_round (2 * np_log10 aval + 0.94) 2 * 10) / 10))
          end
      end
  end.
Proof.
  intros Ha. unfold getShindo.
  unfold bind at 1. unfold np_fft_rfft.
  unfold bind at 1. unfold note at 1. cbn [objs calls].
  unfold bind at 1. unfold load_float2d at 1, bind at 1, load at 1.
  cbn [objs calls]. rewrite Ha. unfold ret at 1.
  destruct (rfft rows) as [spectrum|]; [|reflexivity].
  unfold alloc at 1. cbn [objs calls].
  unfold bind at 1.
  rewrite (filter_run _ Ts spectrum) by (cbn [objs]; apply nth_error_snoc).
  cbn [objs calls]. rewrite update_snoc.
  unfold bind at 1. unfold np_fft_irfft.
  unfold bind at 1. unfold note at 1. cbn [objs calls].
  unfold bind at 1. unfold load_complex2d at 1, bind at 1, load at 1.
  cbn [objs calls]. rewrite nth_error_snoc. unfold ret at 1.
  cbv zeta.
  destruct (irfft (filtered spectrum Ts)) as [afil|]; [|reflexivity].
  unfold alloc at 1. cbn [objs calls].
  unfold bind at 1. unfold load_float2d at 1, bind at 1, load at 1.
  cbn [objs calls].
  rewrite nth_error_snoc. unfold ret at 1.
  unfold bind at 1. unfold alloc at 1. cbn [objs calls].
  unfold bind at 1. unfold call_search_aval.
  unfold bind at 1. unfold load_float1d at 1, bind at 1, load at 1.
  cbn [objs calls]. rewrite nth_error_snoc. unfold ret at 1.
  destruct (_search_aval fuel _ Ts); reflexivity.
Qed.

Lemma getShindo_type_error fuel a Ts w :
  (forall rows, nth_error (objs w) a <> Some (Float2D rows)) ->
  getShindo rfft irfft fuel a Ts w =
  (mkWorld (objs w) (calls w ++ [CallRfft a]), Raises TypeError).
Proof.
  intros Ha. unfold getShindo.
  unfold bind at 1. unfold np_fft_rfft.
  unfold bind at 1. unfold note at 1. cbn [objs calls].
  unfold bind at 1. unfold load_float2d at 1, bind at 1, load at 1.
  cbn [objs calls].
  destruct (nth_error (objs w) a) as [[rows| |]|]; try reflexivity.
  exfalso. now apply (Ha rows).
Qed.

Lemma getShindo_extends_store fuel a Ts w :
  exists fresh, objs (fst (getShindo rfft irfft fuel a Ts w)) = objs w ++ fresh.
Proof.
  destruct (nth_error (objs w) a) as [[rows| |]|] eqn:Ha.
  2-4: rewrite getShindo_type_error by (intros rows; congruence);
       exists []; simpl; now rewrite app_nil_r.
  rewrite (getShindo_run fuel a Ts w rows Ha).
  destruct (rfft rows) as [spectrum|]; [|exists []; simpl; now rewrite app_nil_r].
  cbv zeta. destruct (irfft _) as [afil|]; [|eexists; reflexivity].
  destruct (_search_aval _ _ _); simpl; rewrite <- !app_assoc; eexists; reflexivity.
Qed.

(** C9.  [getShindo] never changes the caller's array.  After a run,
    however it ends, the array under [a] is what it was, and so is every
    array the store held before; the array the filter updates in place is
    the spectrum the forward transform made, under a reference that was
    not in use before the run. *)
Theorem getShindo_leaves_input_unchanged
    (fuel : nat) (a : ref) (Ts : R) (w : world) (arr : ndarray) :
  nth_error (objs w) a = Some arr ->
  let w' := fst (getShindo rfft irfft fuel a Ts w) in
  nth_error (objs w') a = Some arr /\
  (forall r v, nth_error (objs w) r = Some v -> nth_error (objs w') r = Some v) /\
  (forall rows spectrum,
     arr = Float2D rows -> rfft rows = Some spectrum ->
     nth_error (objs w') (List.length (objs w)) =
       Some (Complex2D (filtered spectrum Ts))).
Proof.
  intros Ha w'.
  destruct (getShindo_extends_store fuel a Ts w) as [fresh Hfresh].
  fold w' in Hfresh.
  assert (Hframe : forall r v, nth_error (objs w) r = Some v ->
                               nth_error (objs w') r = Some v).
  { intros r v Hr. rewrite Hfresh, nth_error_app1; [assumption|].
    apply nth_error_Some. congruence. }
  split; [now apply Hframe|]. split; [assumption|].
  intros rows spectrum -> Hspec. unfold w'.
  rewrite (getShindo_run fuel a Ts w rows Ha), Hspec. cbv zeta.
  destruct (irfft _) as [afil|]; [|apply nth_error_snoc].
  destruct (_search_aval _ _ _); simpl; rewrite <- !app_assoc;
    rewrite nth_error_app2, Nat.sub_diag by lia; reflexivity.
Qed.

(** If [getShindo] returns, both transforms succeeded and the search
    returned. *)
Lemma getShindo_returns_inv fuel a Ts w w' I :
  getShindo rfft irfft fuel a Ts w = (w', Returns I) ->
  exists rows spectrum afil aval,
    nth_error (objs w) a = Some (Float2D rows) /\
    rfft rows = Some spectrum /\
    irfft (filtered spectrum Ts) = Some afil /\
    _search_aval fuel (np_sqrt (np_sum_axis1 (np_square afil))) Ts = Some aval /\
    I = np_floor (np_round (2 * np_log10 aval + 0.94) 2 * 10) / 10.
Proof.
  intros Hrun.
  destruct (nth_error (objs w) a) as [[rows| |]|] eqn:Ha.
  2-4: rewrite getShindo_type_error in Hrun by (intros rows; congruence);
       discriminate.
  rewrite (getShindo_run fuel a Ts w rows Ha) in Hrun.
  destruct (rfft rows) as [spectrum|] eqn:Hr; [|discriminate].
  cbv zeta in Hrun.
  destruct (irfft _) as [afil|] eqn:Hi; [|discriminate].
  destruct (_search_aval _ _ _) as [aval|] eqn:Hs; [|discriminate].
  injection Hrun as <- <-. exists rows, spectrum, afil, aval. auto.
Qed.

(** C5.  [getShindo] maps the a-value the search returns to the intensity
    [floor(round(2 * log10(aval) + 0.94, 2) * 10) / 10]: when the search
    returns [aval] on the magnitudes of the filtered samples, [getShindo]
    returns, with that fuel and with any more, the raw value
    [2 * log10(aval) + 0.94] rounded to two decimals and then cut down to one
    decimal. *)
Theorem getShindo_intensity
    (fuel : nat) (a : ref) (Ts : R) (w : world) (rows : list (R * R * R))
    (spectrum : list (C * C * C)) (afil : list (R * R * R)) (aval : R) :
  nth_error (objs w) a = Some (Float2D rows) ->
  rfft rows = Some spectrum ->
  irfft (filtered spectrum Ts) = Some afil ->
  _search_aval fuel (np_sqrt (np_sum_axis1 (np_square afil))) Ts = Some aval ->
  exists I r,
    (forall more,
       snd (getShindo rfft irfft (fuel + more) a Ts w) = Returns I) /\
    I = np_floor (np_round (2 * np_log10 aval + 0.94) 2 * 10) / 10 /\
    rounded_to 2 (2 * np_log10 aval + 0.94) r /\
    truncated_to 1 r I.
Proof.
  intros Ha Hr Hi Hs.
  exists (np_floor (np_round (2 * np_log10 aval + 0.94) 2 * 10) / 10),
         (np_round (2 * np_log10 aval + 0.94) 2).
  split; [|split; [reflexivity|split; [apply np_round_spec|apply np_floor_spec]]].
  intros more. rewrite (getShindo_run (fuel + more) a Ts w rows Ha), Hr.
  cbv zeta. rewrite Hi. unfold _search_aval in *.
  rewrite (search_loop_more_fuel fuel more _ _ _ aval Hs). reflexivity.
Qed.

(** C3, as amended.  [getShindo] checks nothing itself.  Whatever the
    series and the sampling period, the forward transform is called first,
    on the array as it was given.  When that transform raises, as numpy's
    does on an empty series, its error is how [getShindo] ends.  A
    sampling period that is not positive raises nothing: the run ends in
    an error only if a transform raises one, and otherwise the search
    goes round its loop for ever, so no value is produced. *)
Theorem getShindo_no_input_check
    (fuel : nat) (a : ref) (rows : list (R * R * R)) (Ts : R) (w : world) :
  nth_error (objs w) a = Some (Float2D rows) ->
  let w' := fst (getShindo rfft irfft fuel a Ts w) in
  let out := snd (getShindo rfft irfft fuel a Ts w) in
  (exists rest, calls w' = calls w ++ CallRfft a :: rest) /\
  (rfft rows = None ->
     calls w' = calls w ++ [CallRfft a] /\ out = Raises ValueError) /\
  (Ts <= 0 ->
     match rfft rows with
     | None => out = Raises ValueError
     | Some spectrum =>
         match irfft (filtered spectrum Ts) with
         | None => out = Raises ValueError
         | Some _ => out = Spins
         end
     end).
Proof.
  intros Ha. cbv zeta.
  rewrite (getShindo_run fuel a Ts w rows Ha).
  destruct (rfft rows) as [spectrum|]; cbv zeta.
  - destruct (irfft _) as [afil|] eqn:Hi.
    + split.
      { destruct (_search_aval _ _ _); simpl; rewrite <- app_assoc;
          eexists; reflexivity. }
      split; [discriminate|]. intros HTs.
      unfold _search_aval. rewrite search_loop_nonpositive_Ts by assumption.
      reflexivity.
    + split; [simpl; rewrite <- app_assoc; eexists; reflexivity|].
      split; [discriminate|]. reflexivity.
  - split; [exists []; reflexivity|]. split; [now split|]. reflexivity.
Qed.

End PipelineProperties.

(** ** [getShindo] on numpy's transforms *)

(** Equality of lists and tuples of reals, component by component. *)
Ltac components :=
  repeat match goal with
  | |- Some _ = Some _ => apply f_equal
  | |- (_, _) = (_, _) => apply f_equal2
  | |- _ :: _ = _ :: _ => apply f_equal2
  | |- [] = [] => reflexivity
  end.

Lemma cis_neg_0 t : t = 0 -> cis (- t) = (1, 0).
Proof. intros ->. unfold cis. now rewrite Ropp_0, cos_0, sin_0. Qed.

Lemma cis_neg_PI t : t = PI -> cis (- t) = (-1, 0).
Proof.
  intros ->. unfold cis. rewrite cos_neg, sin_neg, cos_PI, sin_PI.
  f_equal; lra.
Qed.

Lemma rfft_1d_two x0 x1 :
  rfft_1d [x0; x1] = [(x0 + x1, 0); (x0 - x1, 0)].
Proof.
  unfold rfft_1d, dft_bin. cbn [List.length].
  change (2 / 2 + 1)%nat with 2%nat. cbn [seq map combine fst snd INR].
  rewrite !(cis_neg_0 _) by lra. rewrite (cis_neg_PI _) by lra.
  unfold Csum, Cadd, Cmul, C_of_R. cbn [fold_right fst snd].
  components; lra.
Qed.

Lemma irfft_1d_two X0 X1 :
  irfft_1d [X0; X1] = [(fst X0 + fst X1) / 2; (fst X0 - fst X1) / 2].
Proof.
  unfold irfft_1d, irfft_term.
  cbn [List.length Nat.sub Nat.mul Nat.add seq map combine fst snd INR
       Nat.eqb orb fold_right].
  replace (2 * PI * 0 * 0 / (1 + 1)) with 0 by lra.
  replace (2 * PI * 1 * 0 / (1 + 1)) with 0 by lra.
  replace (2 * PI * 0 * 1 / (1 + 1)) with 0 by lra.
  replace (2 * PI * 1 * 1 / (1 + 1)) with PI by lra.
  rewrite cos_0, cos_PI. components; lra.
Qed.

Lemma numpy_rfft_two a0 b0 c0 a1 b1 c1 :
  numpy_rfft [(a0, b0, c0); (a1, b1, c1)] =
  Some [((a0 + a1, 0), (b0 + b1, 0), (c0 + c1, 0));
        ((a0 - a1, 0), (b0 - b1, 0), (c0 - c1, 0))].
Proof.
  unfold numpy_rfft, column. cbn [map]. rewrite !rfft_1d_two. reflexivity.
Qed.

Lemma numpy_irfft_two Z00 Z01 Z02 Z10 Z11 Z12 :
  numpy_irfft [(Z00, Z01, Z02); (Z10, Z11, Z12)] =
  Some [((fst Z00 + fst Z10) / 2, (fst Z01 + fst Z11) / 2, (fst Z02 + fst Z12) / 2);
        ((fst Z00 - fst Z10) / 2, (fst Z01 - fst Z11) / 2, (fst Z02 - fst Z12) / 2)].
Proof.
  unfold numpy_irfft, column. cbn [map List.length Nat.leb].
  rewrite !irfft_1d_two. reflexivity.
Qed.

Lemma numpy_rfft_empty : numpy_rfft [] = None.
Proof. reflexivity. Qed.

(** *** A run on two samples *)

Lemma weight_nonneg f : 0 <= weight f.
Proof.
  unfold weight, weight_pe, weight_hc, weight_lc.
  pose proof (hc_poly_ge_1 (f / 10)) as HP.
  assert (0 < sqrt (hc_poly (f / 10))) by (apply sqrt_lt_R0; lra).
  apply Rmult_le_pos; [apply Rmult_le_pos|]; try apply sqrt_pos.
  apply Rlt_le, Rdiv_lt_0_compat; lra.
Qed.

Lemma weight_five_thirds : 1 / 8 <= weight (5 / 3).
Proof.
  pose proof (weight_nonneg (5 / 3)) as H0.
  pose proof (weight_sqr (5 / 3) ltac:(lra)) as Hsq.
  assert (Hc : 1 / 2 <= 1 - exp (- (5 / 3 / 0.5) ^ 3)).
  { rewrite exp_Ropp.
    pose proof (exp_ineq1_le ((5 / 3 / 0.5) ^ 3)) as He.
    assert (Hy : 1 <= (5 / 3 / 0.5) ^ 3) by (simpl; lra).
    assert (Hi : / exp ((5 / 3 / 0.5) ^ 3) <= / 2)
      by (apply Rinv_le_contravar; lra).
    lra. }
  pose proof (lc_arg_ge_0 (5 / 3) ltac:(lra)) as Hc1.
  assert (Hb : 1 <= hc_poly (5 / 3 / 10) <= 2).
  { split; [apply hc_poly_ge_1|]. unfold hc_poly. simpl. lra. }
  set (c := 1 - exp _) in *. set (b := hc_poly _) in *.
  assert (Ha : 1 / 2 <= 1 / (5 / 3 + 0.0001)).
  { replace (1 / 2) with (/ 2) by lra.
    replace (1 / (5 / 3 + 0.0001)) with (/ (5 / 3 + 0.0001)) by lra.
    apply Rinv_le_contravar; lra. }
  set (a := 1 / _) in *.
  assert (Hib : 1 / 2 <= / b).
  { replace (1 / 2) with (/ 2) by lra. apply Rinv_le_contravar; lra. }
  assert (Hac : 1 / 4 <= a * c) by nra.
  assert (Hw : 1 / 8 <= weight (5 / 3) * weight (5 / 3)).
  { rewrite Hsq. unfold Rdiv. fold (1 / (5 / 3 + 0.0001)). fold a.
    set (ib := / b) in *. nra. }
  destruct (Rle_dec (1 / 8) (weight (5 / 3))) as [|Hn]; [assumption|].
  exfalso. nra.
Qed.

Lemma search_aval_two_large m0 m1 :
  2000 <= m0 -> 2000 <= m1 -> _search_aval 1 [m0; m1] 0.15 = Some 2000.0.
Proof.
  intros H0 H1. unfold _search_aval. search_pass. reflexivity.
Qed.

Lemma sqrt_sum_large e0 e1 e2 :
  2000 <= Rabs e0 -> 2000 <= sqrt (e0 ^ 2 + e1 ^ 2 + e2 ^ 2).
Proof.
  intros H.
  pose proof (pow2_ge_0 e1). pose proof (pow2_ge_0 e2).
  rewrite <- (sqrt_pow2 2000) by lra.
  apply sqrt_le_1; [simpl; lra|nra|].
  rewrite <- (pow2_abs e0). pose proof (Rabs_pos e0). nra.
Qed.

Lemma log10_2_bounds : 2 / 7 < ln 2 / ln 10 < 4 / 13.
Proof.
  assert (H10 : 0 < ln 10) by (rewrite <- ln_1; apply ln_increasing; lra).
  assert (Hlo : ln (10 ^ 2) < ln (2 ^ 7))
    by (apply ln_increasing; simpl; lra).
  assert (Hhi : ln (2 ^ 13) < ln (10 ^ 4))
    by (apply ln_increasing; simpl; lra).
  rewrite !ln_pow in Hlo, Hhi by lra. simpl INR in Hlo, Hhi.
  split.
  - apply Rmult_lt_reg_r with (ln 10); [assumption|].
    unfold Rdiv at 2. rewrite Rmult_assoc, Rinv_l by lra. lra.
  - apply Rmult_lt_reg_r with (ln 10); [assumption|].
    unfold Rdiv at 1. rewrite Rmult_assoc, Rinv_l by lra. lra.
Qed.

Lemma log10_2000 : np_log10 2000.0 = 3 + ln 2 / ln 10.
Proof.
  unfold np_log10.
  assert (H10 : 0 < ln 10) by (rewrite <- ln_1; apply ln_increasing; lra).
  replace 2000.0 with (2 * 10 ^ 3) by (simpl; lra).
  rewrite ln_mult, ln_pow by (try apply pow_lt; lra).
  simpl INR. field. lra.
Qed.

Lemma Rabs_le_bounds a b : Rabs a <= b -> - b <= a <= b.
Proof. unfold Rabs. destruct (Rcase_abs a); lra. Qed.

(** The intensity of an a-value of 2000 gal. *)
Lemma intensity_of_2000 :
  np_floor (np_round (2 * np_log10 2000.0 + 0.94) 2 * 10) / 10 = 7.5.
Proof.
  rewrite log10_2000. pose proof log10_2_bounds as [Hlo Hhi].
  set (l := ln 2 / ln 10) in *.
  unfold np_round.
  destruct (np_rint_spec ((2 * (3 + l) + 0.94) * 10 ^ 2)) as (n & -> & Hn & _).
  apply Rabs_le_bounds in Hn. simpl pow in *.
  assert (Hn1 : (750 < n)%Z) by (apply lt_IZR; lra).
  assert (Hn2 : (n < 757)%Z) by (apply lt_IZR; lra).
  assert (Hr1 : IZR 751 <= IZR n) by (apply IZR_le; lia).
  assert (Hr2 : IZR n <= IZR 756) by (apply IZR_le; lia).
  unfold np_floor. rewrite (Zfloor_eq 75); lra.
Qed.

(** Two samples of 20000 gal and -20000 gal north-south, 0.15 s apart:
    both transforms succeed, both filtered magnitudes are above 2000 gal,
    and the search accepts 2000 gal on its first pass. *)
Lemma two_samples_stages :
  exists spectrum afil,
    numpy_rfft [(20000, 0, 0); (-20000, 0, 0)] = Some spectrum /\
    numpy_irfft (filtered spectrum 0.15) = Some afil /\
    _search_aval 1 (np_sqrt (np_sum_axis1 (np_square afil))) 0.15 = Some 2000.0.
Proof.
  eexists. eexists. split; [apply numpy_rfft_two|].
  unfold filtered. cbn [List.length seq combine map fst snd scale_row].
  unfold Cscale. cbn [fst snd].
  split; [apply numpy_irfft_two|]. cbn [fst snd].
  unfold np_square, np_sum_axis1, np_sqrt. cbn [map].
  replace (bin_frequency 2 0.15 1) with (5 / 3)
    by (unfold bin_frequency; simpl; lra).
  pose proof weight_five_thirds as HW.
  set (W0 := weight (bin_frequency 2 0.15 0)).
  set (W1 := weight (5 / 3)) in *.
  apply search_aval_two_large.
  - apply sqrt_sum_large.
    replace ((W0 * (20000 + -20000) + W1 * (20000 - -20000)) / 2)
      with (W1 * 20000) by lra.
    rewrite Rabs_pos_eq; nra.
  - apply sqrt_sum_large.
    replace ((W0 * (20000 + -20000) - W1 * (20000 - -20000)) / 2)
      with (- (W1 * 20000)) by lra.
    rewrite Rabs_Ropp, Rabs_pos_eq; nra.
Qed.

(** The run of [getShindo] on these two samples: the intensity is 7.5. *)
Example getShindo_two_samples :
  snd (getShindo numpy_rfft numpy_irfft 1 0%nat 0.15
         (mkWorld [Float2D [(20000, 0, 0); (-20000, 0, 0)]] [])) =
  Returns 7.5.
Proof.
  destruct two_samples_stages as (spectrum & afil & Hr & Hi & Hs).
  rewrite (getShindo_run numpy_rfft numpy_irfft 1 0%nat 0.15
             (mkWorld [Float2D [(20000, 0, 0); (-20000, 0, 0)]] [])
             [(20000, 0, 0); (-20000, 0, 0)] eq_refl).
  rewrite Hr. cbv zeta. rewrite Hi, Hs. cbn [snd].
  now rewrite intensity_of_2000.
Qed.

(** *** The claims about [getShindo] at given inputs *)

Lemma getShindo_leaves_input_unchanged_witness :
  let rows := [(20000, 0, 0); (-20000, 0, 0)] in
  let spectrum :=
    [((20000 + -20000, 0), (0 + 0, 0), (0 + 0, 0));
     ((20000 - -20000, 0), (0 - 0, 0), (0 - 0, 0))] in
  let w := mkWorld [Float2D rows] [] in
  let w' := fst (getShindo numpy_rfft numpy_irfft 1 0%nat 0.15 w) in
  nth_error (objs w) 0 = Some (Float2D rows) /\
  numpy_rfft rows = Some spectrum /\
  nth_error (objs w') 0 = Some (Float2D rows) /\
  nth_error (objs w') 1 = Some (Complex2D (filtered spectrum 0.15)).
Proof.
  cbv zeta.
  destruct (getShindo_leaves_input_unchanged numpy_rfft numpy_irfft
              1 0%nat 0.15
              (mkWorld [Float2D [(20000, 0, 0); (-20000, 0, 0)]] [])
              _ eq_refl) as (Hinput & _ & Hspectrum).
  split; [reflexivity|]. split; [apply numpy_rfft_two|].
  split; [exact Hinput|].
  exact (Hspectrum _ _ eq_refl (numpy_rfft_two _ _ _ _ _ _)).
Defined.

Lemma getShindo_intensity_witness :
  let w := mkWorld [Float2D [(20000, 0, 0); (-20000, 0, 0)]] [] in
  exists I r,
    snd (getShindo numpy_rfft numpy_irfft 1 0%nat 0.15 w) = Returns I /\
    I = np_floor (np_round (2 * np_log10 2000.0 + 0.94) 2 * 10) / 10 /\
    rounded_to 2 (2 * np_log10 2000.0 + 0.94) r /\
    truncated_to 1 r I.
Proof.
  cbv zeta.
  destruct two_samples_stages as (spectrum & afil & Hr & Hi & Hs).
  destruct (getShindo_intensity numpy_rfft numpy_irfft 1 0%nat 0.15
              (mkWorld [Float2D [(20000, 0, 0); (-20000, 0, 0)]] [])
              [(20000, 0, 0); (-20000, 0, 0)] spectrum afil 2000.0
              eq_refl Hr Hi Hs) as (I & r & Hrun & HI & Hround & Htrunc).
  exists I, r. split; [exact (Hrun 0%nat)|]. auto.
Defined.

Lemma getShindo_no_input_check_witness :
  let w := mkWorld [Float2D []] [] in
  nth_error (objs w) 0 = Some (Float2D []) /\
  numpy_rfft [] = None /\
  0 <= 0 /\
  calls (fst (getShindo numpy_rfft numpy_irfft 1 0%nat 0 w)) = [CallRfft 0%nat] /\
  snd (getShindo numpy_rfft numpy_irfft 1 0%nat 0 w) = Raises ValueError.
Proof.
  cbv zeta.
  destruct (getShindo_no_input_check numpy_rfft numpy_irfft 1 0%nat [] 0
              (mkWorld [Float2D []] []) eq_refl) as (_ & Hnone & Hperiod).
  split; [reflexivity|]. split; [reflexivity|]. split; [lra|].
  split; [exact (proj1 (Hnone eq_refl))|]. exact (Hperiod (Rle_refl 0)).
Defined.

(** C3 as stated fails.  On an empty series the forward transform is
    called, and the error that ends the run is the one numpy's transform
    raises.  On two samples with a sampling period of -0.01 both
    transforms are called, nothing is raised, and the search is still in
    its loop after 1000 passes. *)
Lemma getShindo_input_check_counterexample :
  (let run := getShindo numpy_rfft numpy_irfft 1 0%nat 0.01
                (mkWorld [Float2D []] []) in
   calls (fst run) = [CallRfft 0%nat] /\ snd run = Raises ValueError) /\
  (let run := getShindo numpy_rfft numpy_irfft 1000 0%nat (-0.01)
                (mkWorld [Float2D [(20000, 0, 0); (-20000, 0, 0)]] []) in
   calls (fst run) = [CallRfft 0%nat; CallIrfft 1%nat] /\ snd run = Spins).
Proof.
  split; cbv zeta.
  - rewrite (getShindo_run numpy_rfft numpy_irfft 1 0%nat 0.01
               (mkWorld [Float2D []] []) [] eq_refl).
    split; reflexivity.
  - rewrite (getShindo_run numpy_rfft numpy_irfft 1000 0%nat (-0.01)
               (mkWorld [Float2D [(20000, 0, 0); (-20000, 0, 0)]] [])
               [(20000, 0, 0); (-20000, 0, 0)] eq_refl).
    rewrite numpy_rfft_two. cbv zeta.
    unfold filtered. cbn [List.length seq combine map fst snd scale_row].
    rewrite numpy_irfft_two.
    unfold _search_aval. rewrite search_loop_nonpositive_Ts by lra.
    split; reflexivity.
Defined.

(** ** [getShindoName] *)

Lemma in_class_total I : exists k, in_class k I.
Proof.
  destruct (Rlt_dec I 0.5); [now exists Shindo0|].
  destruct (Rlt_dec I 1.5); [exists Shindo1; simpl; lra|].
  destruct (Rlt_dec I 2.5); [exists Shindo2; simpl; lra|].
  destruct (Rlt_dec I 3.5); [exists Shindo3; simpl; lra|].
  destruct (Rlt_dec I 4.5); [exists Shindo4; simpl; lra|].
  destruct (Rlt_dec I 5.0); [exists Shindo5Lower; simpl; lra|].
  destruct (Rlt_dec I 5.5); [exists Shindo5Upper; simpl; lra|].
  destruct (Rlt_dec I 6.0); [exists Shindo6Lower; simpl; lra|].
  destruct (Rlt_dec I 6.5); [exists Shindo6Upper; simpl; lra|].
  exists Shindo7. simpl. lra.
Qed.

Lemma in_class_unique I k k' : in_class k I -> in_class k' I -> k = k'.
Proof. destruct k, k'; simpl; intros; try reflexivity; lra. Qed.

Lemma getShindoName_in_class I k :
  in_class k I ->
  getShindoName I "en" = Some (label_en k) /\
  getShindoName I "jp" = Some (label_jp k).
Proof.
  intros H. unfold getShindoName.
  destruct k; simpl in H; Rcompare; split; reflexivity.
Qed.

(** C4.  For every real [I], in both languages, [getShindoName] returns
    the label of the one class of the table whose interval holds [I]: "0"
    below 0.5, "1" on [0.5, 1.5), and so on up to "7" from 6.5.  It is a
    function, so the label is determined by [I] and the language, and it
    returns a label for every real. *)
Theorem getShindoName_table (I : R) :
  exists k,
    in_class k I /\
    (forall k', in_class k' I -> k' = k) /\
    getShindoName I "en" = Some (label_en k) /\
    getShindoName I "jp" = Some (label_jp k).
Proof.
  destruct (in_class_total I) as [k Hk]. exists k.
  split; [assumption|]. split.
  - intros k' Hk'. now apply (in_class_unique I).
  - now apply getShindoName_in_class.
Qed.

(** The values of the specification's list of boundary cases. *)
Example getShindoName_boundaries :
  getShindoName (-1) "jp" = Some "0"%string /\
  getShindoName 0.49 "en" = Some "0"%string /\
  getShindoName 0.5 "en" = Some "1"%string /\
  getShindoName 1.49 "jp" = Some "1"%string /\
  getShindoName 1.5 "jp" = Some "2"%string /\
  getShindoName 4.49 "en" = Some "4"%string /\
  getShindoName 4.5 "en" = Some "5-"%string /\
  getShindoName 4.99 "jp" = Some "5弱"%string /\
  getShindoName 5.0 "jp" = Some "5強"%string /\
  getShindoName 5.49 "en" = Some "5+"%string /\
  getShindoName 5.5 "en" = Some "6-"%string /\
  getShindoName 5.99 "jp" = Some "6弱"%string /\
  getShindoName 6.0 "jp" = Some "6強"%string /\
  getShindoName 6.49 "en" = Some "6+"%string /\
  getShindoName 6.5 "en" = Some "7"%string /\
  getShindoName 100 "jp" = Some "7"%string.
Proof. unfold getShindoName. repeat split; Rcompare; reflexivity. Qed.

Lemma getShindoName_table_witness :
  exists k,
    in_class k 5.0 /\
    getShindoName 5.0 "en" = Some "5+"%string /\
    getShindoName 5.0 "jp" = Some "5強"%string.
Proof.
  destruct (getShindoName_table 5.0) as (k & Hk & Huniq & Hen & Hjp).
  assert (E : Shindo5Upper = k) by (apply Huniq; simpl; lra).
  exists k. rewrite <- E in Hen, Hjp. auto.
Defined.

(** * Further properties *)

(** ** The search *)


Lemma count_pos_In a v : (0 < count a v)%nat -> exists x, In x a /\ v <= x.
Proof.
  induction a as [|x a IH]; [rewrite count_nil; lia|].
  rewrite count_cons. destruct (x >=? v) eqn:E.
  - intros _. exists x. split; [now left|]. now apply Rgeb_true.
  - intros H. destruct (IH H) as (y & Hy & Hv). exists y. split; [now right|assumption].
Qed.






(** X3.  The search only ever returns a value of the form
    [2000 * 3^p / 2^n], with [n] the number of passes before the last and
    [p <= n] the number of those that raised the estimate; it is the
    estimate at the head of pass [n]. *)
Theorem search_aval_lattice (fuel : nat) (a : list R) (Ts aval : R) :
  _search_aval fuel a Ts = Some aval ->
  exists n p,
    (n < fuel)%nat /\ (p <= n)%nat /\ aval = 2000.0 * 3 ^ p / 2 ^ n /\
    estimate_at n a Ts 2000.0 = Some aval.
Proof.
  unfold _search_aval. generalize 2000.0 as start. revert aval.
  induction fuel as [|fuel IH]; intros aval start H; [discriminate|].
  rewrite search_loop_S in H.
  destruct (search_body a Ts start) as [s'|s'] eqn:Eb.
  - destruct (IH _ _ H) as (n & p & Hn & Hp & Hv & He).
    pose proof (search_body_spec a Ts start) as Hs. rewrite Eb in Hs.
    assert (0 < 2 ^ n) by (apply pow_lt; lra).
    inversion Hs; subst s'.
    + exists (S n), p. split; [lia|]. split; [lia|]. split.
      * rewrite Hv. simpl. field. lra.
      * simpl. rewrite Eb. exact He.
    + exists (S n), (S p). split; [lia|]. split; [lia|]. split.
      * rewrite Hv. simpl. field. lra.
      * simpl. rewrite Eb. exact He.
  - pose proof (search_body_spec a Ts start) as Hs. rewrite Eb in Hs.
    inversion Hs; subst. injection H as <-.
    exists 0%nat, 0%nat. split; [lia|]. split; [lia|]. split; [simpl; field|].
    reflexivity.
Qed.

Lemma search_aval_lattice_witness :
  _search_aval 6 [100; 0] 0.3 = Some 62.5 /\
  exists n p, (n < 6)%nat /\ (p <= n)%nat /\ 62.5 = 2000.0 * 3 ^ p / 2 ^ n.
Proof.
  destruct (search_aval_lattice 6 [100; 0] 0.3 62.5 search_two_low)
    as (n & p & Hn & Hp & Hv & _).
  split; [exact search_two_low|]. exists n, p. auto.
Defined.

Lemma count_permutation a b v : Permutation a b -> count a v = count b v.
Proof.
  induction 1 as [|x a b _ IH|x y a|a b c _ IH1 _ IH2].
  - reflexivity.
  - rewrite !count_cons. now rewrite IH.
  - rewrite !count_cons. lia.
  - congruence.
Qed.

(** X4.  The search does not depend on the order of the samples: on two
    series that are permutations of each other it returns the same value,
    or is still running, after the same number of passes. *)
Theorem search_aval_permutation (fuel : nat) (a b : list R) (Ts : R) :
  Permutation a b -> _search_aval fuel a Ts = _search_aval fuel b Ts.
Proof.
  intros Hp. unfold _search_aval. generalize 2000.0 as start.
  induction fuel as [|fuel IH]; intros start; [reflexivity|].
  rewrite !search_loop_S.
  assert (E : search_body a Ts start = search_body b Ts start).
  { unfold search_body. fold (count a start). fold (count b start).
    now rewrite (count_permutation a b start Hp). }
  rewrite E. destruct (search_body b Ts start); [apply IH|reflexivity].
Qed.

Lemma search_aval_permutation_witness :
  Permutation [100; 0] [0; 100] /\
  _search_aval 6 [100; 0] 0.3 = _search_aval 6 [0; 100] 0.3.
Proof.
  assert (H : Permutation [100; 0] [0; 100]) by apply perm_swap.
  split; [exact H|]. exact (search_aval_permutation 6 _ _ 0.3 H).
Defined.


Lemma estimate_at_bounded n a Ts bound start aval :
  Forall (fun x => x <= bound) a ->
  0 < start <= Rmax 2000.0 (3 * bound / 2) ->
  estimate_at n a Ts start = Some aval ->
  0 < aval <= Rmax 2000.0 (3 * bound / 2).
Proof.
  intros Hb. revert start.
  induction n as [|n IH]; intros start Hstart H; simpl in H.
  - injection H as <-. assumption.
  - destruct (search_body a Ts start) as [s'|s'] eqn:Eb; [|discriminate].
    apply (IH s'); [|assumption].
    pose proof (search_body_spec a Ts start) as Hs. rewrite Eb in Hs.
    inversion Hs as [HT|HT|HT]; subst s'.
    + lra.
    + split; [lra|].
      assert (Hpos : (0 < count a start)%nat).
      { destruct (count a start) eqn:E; [simpl in HT; lra|lia]. }
      destruct (count_pos_In a start Hpos) as (x & Hx & Hle).
      rewrite Forall_forall in Hb. specialize (Hb x Hx).
      apply Rle_trans with (3 * bound / 2); [lra|apply Rmax_r].
Qed.

(** X5.  The working estimate stays within bounds: on a series whose
    samples are all at most [bound], every estimate is positive and at most
    the larger of 2000 and [3 * bound / 2]. *)
Theorem search_aval_estimates_bounded
    (n : nat) (a : list R) (Ts bound aval : R) :
  Forall (fun x => x <= bound) a ->
  estimate_at n a Ts 2000.0 = Some aval ->
  0 < aval <= Rmax 2000.0 (3 * bound / 2).
Proof.
  intros Hb. apply estimate_at_bounded; [assumption|].
  split; [lra|apply Rmax_l].
Qed.

Example estimate_two_up : estimate_at 1 [2500; 2400] 0.3 2000.0 = Some 3000.
Proof. unfold estimate_at. estimate_pass. f_equal. lra. Qed.

Lemma search_aval_estimates_bounded_witness :
  Forall (fun x => x <= 2500) [2500; 2400] /\
  estimate_at 1 [2500; 2400] 0.3 2000.0 = Some 3000 /\
  0 < 3000 <= Rmax 2000.0 (3 * 2500 / 2).
Proof.
  assert (H : Forall (fun x => x <= 2500) [2500; 2400])
    by (repeat constructor; lra).
  split; [exact H|]. split; [exact estimate_two_up|].
  exact (search_aval_estimates_bounded 1 _ 0.3 2500 3000 H estimate_two_up).
Defined.

(** *** When the search is sure to return *)

Section Gap.

Variable a : list R.
Variable Ts : R.
Variable L : R.
Variable U : R.
Hypothesis HL : 0 <= L.
Hypothesis HU : 0 < U.
Hypothesis Hgap : 2 * L <= U.
Hypothesis Habove : forall v, U < v -> T_above a Ts v < 0.2997.
Hypothesis Hband : forall v, L < v <= U -> 0.2997 <= T_above a Ts v <= 0.3003.
Hypothesis Hbelow : forall v, 0 < v <= L -> 0.3003 < T_above a Ts v.

Lemma search_body_in_band v : L < v <= U -> search_body a Ts v = Break v.
Proof.
  intros Hv. specialize (Hband v Hv). unfold T_above in Hband.
  destruct (search_body_spec a Ts v) as [H|H|H]; [lra|lra|reflexivity].
Qed.

Lemma search_body_above_band v :
  U < v -> search_body a Ts v = Continue (v - v / 2).
Proof.
  intros Hv. specialize (Habove v Hv). unfold T_above in Habove.
  destruct (search_body_spec a Ts v) as [H|H|H]; [reflexivity|lra|lra].
Qed.

Lemma search_body_below_band v :
  0 < v <= L -> search_body a Ts v = Continue (v + v / 2).
Proof.
  intros Hv. specialize (Hbelow v Hv). unfold T_above in Hbelow.
  destruct (search_body_spec a Ts v) as [H|H|H]; [lra|reflexivity|lra].
Qed.

Lemma search_loop_halves_into_band n start :
  L < start -> start <= U * 2 ^ n ->
  exists fuel v, search_loop fuel a Ts start = Some v /\ L < v <= U.
Proof.
  revert start. induction n as [|n IH]; intros start HLs Hs.
  - exists 1%nat, start.
    rewrite search_loop_S, search_body_in_band by (simpl in Hs; lra).
    split; [reflexivity|simpl in Hs; lra].
  - destruct (Rle_dec start U) as [Hle|Hgt].
    + exists 1%nat, start. rewrite search_loop_S, search_body_in_band by lra.
      split; [reflexivity|lra].
    + destruct (IH (start - start / 2)) as (fuel & v & Hv & Hb);
        [lra|simpl in Hs; lra|].
      exists (S fuel), v.
      rewrite search_loop_S, search_body_above_band by lra. auto.
Qed.

Lemma search_loop_grows_into_band n start :
  0 < start <= L -> L < start * (3 / 2) ^ n ->
  exists fuel v, search_loop fuel a Ts start = Some v /\ L < v <= U.
Proof.
  revert start. induction n as [|n IH]; intros start Hs Hn.
  - simpl in Hn. lra.
  - destruct (Rle_dec (start + start / 2) L) as [Hle|Hgt].
    + destruct (IH (start + start / 2)) as (fuel & v & Hv & Hb);
        [lra|simpl in Hn; lra|].
      exists (S fuel), v.
      rewrite search_loop_S, search_body_below_band by assumption. auto.
    + exists 2%nat, (start + start / 2).
      rewrite search_loop_S, search_body_below_band by assumption.
      rewrite search_loop_S, search_body_in_band by lra.
      split; [reflexivity|lra].
Qed.

Lemma pow_reaches x b : 1 < x -> exists n, b < x ^ n.
Proof.
  intros Hx.
  destruct (Pow_x_infinity x) with (b := b + 1) as [N HN].
  { rewrite Rabs_pos_eq; lra. }
  exists N. specialize (HN N (le_n N)).
  rewrite Rabs_pos_eq in HN; [lra|]. apply pow_le. lra.
Qed.

(** X6.  The search returns when the accepted thresholds make up an
    interval [(L, U]] that is wide enough, [U >= 2 * L]: if every
    threshold above [U] has too few samples above it, every threshold in
    [(L, U]] is accepted and every positive threshold up to [L] has too
    many, then with enough fuel the search returns a value in [(L, U]]. *)
Theorem search_aval_returns_on_gap :
  exists fuel aval, _search_aval fuel a Ts = Some aval /\ L < aval <= U.
Proof.
  unfold _search_aval.
  destruct (Rlt_dec L 2000.0) as [Hhi|Hlo].
  - destruct (pow_reaches 2 (2000.0 / U)) as [n Hn]; [lra|].
    apply (search_loop_halves_into_band n); [assumption|].
    apply Rmult_lt_compat_l with (r := U) in Hn; [|assumption].
    replace (U * (2000.0 / U)) with 2000.0 in Hn by (field; lra). lra.
  - assert (HLpos : 0 < L) by lra.
    destruct (pow_reaches (3 / 2) (L / 2000.0)) as [n Hn]; [lra|].
    apply (search_loop_grows_into_band n); [lra|].
    apply Rmult_lt_compat_l with (r := 2000.0) in Hn; [|lra].
    replace (2000.0 * (L / 2000.0)) with L in Hn by (field; lra). lra.
Qed.

End Gap.

Lemma count_two_100_0 v :
  count [100; 0] v =
  ((if 100 >=? v then 1 else 0) + ((if 0 >=? v then 1 else 0) + 0))%nat.
Proof. now rewrite !count_cons, count_nil. Qed.

Lemma search_aval_returns_on_gap_witness :
  exists fuel aval, _search_aval fuel [100; 0] 0.3 = Some aval /\ 0 < aval <= 100.
Proof.
  apply (search_aval_returns_on_gap [100; 0] 0.3 0 100); try lra.
  - intros v Hv. unfold T_above. rewrite count_two_100_0. Rcompare. simpl. lra.
  - intros v Hv. unfold T_above. rewrite count_two_100_0. Rcompare. simpl. lra.
  - intros v Hv. lra.
Defined.


(** ** The classification *)

(** X7.  Any language tag other than ['jp'] gives the English labels: the
    tag is compared with ['jp'] only, so a misspelt or unknown tag is not
    an error. *)
Theorem getShindoName_other_language (I : R) (lang : string) :
  lang <> "jp"%string ->
  getShindoName I lang = getShindoName I "en".
Proof.
  intros Hl. apply String.eqb_neq in Hl.
  unfold getShindoName. rewrite Hl.
  replace (String.eqb "en" "jp") with false by reflexivity. reflexivity.
Qed.

Lemma getShindoName_other_language_witness :
  "JP"%string <> "jp"%string /\
  getShindoName 5.0 "JP" = Some "5+"%string.
Proof.
  assert (H : "JP"%string <> "jp"%string) by discriminate.
  split; [exact H|].
  rewrite (getShindoName_other_language 5.0 "JP" H).
  unfold getShindoName. Rcompare. reflexivity.
Defined.

(** ** The filter *)

Lemma weight_0 : weight 0 = 0.
Proof.
  unfold weight, weight_lc.
  replace (- (0 / 0.5) ^ 3) with (- 0) by (simpl; lra).
  rewrite Ropp_0, exp_0, Rminus_diag, sqrt_0. ring.
Qed.

(** X8.  The filter removes the constant component: for [Ts] other than
    zero, bin 0 of every channel is zero after the filter, whatever it was
    before, because the low-cut weight vanishes at frequency 0. *)
Theorem filter_removes_dc
    (w : world) (A : ref) (row : C * C * C) (rows : list (C * C * C)) (Ts : R) :
  nth_error (objs w) A = Some (Complex2D (row :: rows)) ->
  Ts <> 0 ->
  exists rows',
    _filter A Ts w =
      (mkWorld (update (objs w) A (Complex2D (((0, 0), (0, 0), (0, 0)) :: rows')))
         (calls w),
       Returns tt) /\
    List.length rows' = List.length rows.
Proof.
  intros HA _. rewrite (filter_run A Ts (row :: rows) w HA).
  pose proof (length_filtered (row :: rows) Ts) as Hlen.
  pose proof (nth_error_filtered (row :: rows) Ts 0 row eq_refl) as H0.
  destruct (filtered (row :: rows) Ts) as [|row' rows'] eqn:E; [discriminate|].
  simpl in H0. injection H0 as ->.
  exists rows'. split.
  - do 4 f_equal. unfold bin_frequency. simpl INR at 1.
    replace (0 / _) with 0 by (unfold Rdiv; ring).
    rewrite weight_0. destruct row as [[[a0 b0] [a1 b1]] [a2 b2]].
    unfold scale_row, Cscale. simpl. components; try reflexivity; ring.
  - cbn [List.length] in Hlen. now injection Hlen.
Qed.

Lemma filter_removes_dc_witness :
  let w := mkWorld [Complex2D [((5, 1), (2, 0), (0, 3)); ((1, 0), (1, 0), (1, 0))]] [] in
  nth_error (objs w) 0 =
    Some (Complex2D [((5, 1), (2, 0), (0, 3)); ((1, 0), (1, 0), (1, 0))]) /\
  0.01 <> 0 /\
  exists rows',
    _filter 0%nat 0.01 w =
      (mkWorld (update (objs w) 0%nat (Complex2D (((0, 0), (0, 0), (0, 0)) :: rows')))
         (calls w),
       Returns tt) /\
    List.length rows' = 1%nat.
Proof.
  cbv zeta. split; [reflexivity|]. split; [lra|].
  exact (filter_removes_dc
           (mkWorld [Complex2D [((5, 1), (2, 0), (0, 3)); ((1, 0), (1, 0), (1, 0))]] [])
           0%nat _ _ 0.01 eq_refl ltac:(lra)).
Defined.

Lemma weight_sqr_le_2 f : 0 <= f -> weight f * weight f <= 2.
Proof.
  intros Hf. rewrite weight_sqr by assumption.
  pose proof (hc_poly_ge_1 (f / 10)) as HP.
  pose proof (lc_arg_ge_0 f Hf) as [Hc0 Hc1].
  assert (Hc2 : 1 - exp (- (f / 0.5) ^ 3) <= (f / 0.5) ^ 3).
  { pose proof (exp_ineq1_le (- (f / 0.5) ^ 3)). lra. }
  set (c := 1 - exp _) in *. set (b := hc_poly _) in *.
  assert (Hib : 0 < / b <= 1).
  { split; [apply Rinv_0_lt_compat; lra|].
    rewrite <- Rinv_1. apply Rinv_le_contravar; lra. }
  assert (Ha : 0 < / (f + 0.0001)) by (apply Rinv_0_lt_compat; lra).
  assert (Hac : 1 / (f + 0.0001) * c <= 2).
  { apply Rmult_le_reg_r with (f + 0.0001); [lra|].
    replace (1 / (f + 0.0001) * c * (f + 0.0001)) with c by (field; lra).
    destruct (Rle_dec f (1 / 2)) as [Hs|Hs].
    - apply Rle_trans with ((f / 0.5) ^ 3); [assumption|].
      replace ((f / 0.5) ^ 3) with (8 * f * (f * f)) by (simpl; lra).
      assert (f * f <= 1 / 4) by nra. nra.
    - lra. }
  assert (Hac0 : 0 <= 1 / (f + 0.0001) * c).
  { apply Rmult_le_pos; [|assumption]. lra. }
  unfold Rdiv at 1. set (ac := 1 / (f + 0.0001) * c) in *.
  set (ib := / b) in *. nra.
Qed.

Lemma Cnorm2_scale w z : Cnorm2 (Cscale w z) = w * w * Cnorm2 z.
Proof. unfold Cnorm2, Cscale. simpl. ring. Qed.

Lemma Cnorm2_nonneg z : 0 <= Cnorm2 z.
Proof. unfold Cnorm2. pose proof (pow2_ge_0 (fst z)). pose proof (pow2_ge_0 (snd z)). lra. Qed.

(** X9.  The filter never amplifies a bin by more than the square root of
    two: for [Ts > 0], the squared modulus of every bin of every channel
    after the filter is at most twice what it was before. *)
Theorem filter_gain_bounded
    (w : world) (A : ref) (rows : list (C * C * C)) (Ts : R)
    (k : nat) (z0 z1 z2 : C) :
  nth_error (objs w) A = Some (Complex2D rows) ->
  0 < Ts ->
  nth_error rows k = Some (z0, z1, z2) ->
  exists rows' z0' z1' z2',
    _filter A Ts w =
      (mkWorld (update (objs w) A (Complex2D rows')) (calls w), Returns tt) /\
    nth_error rows' k = Some (z0', z1', z2') /\
    Cnorm2 z0' <= 2 * Cnorm2 z0 /\
    Cnorm2 z1' <= 2 * Cnorm2 z1 /\
    Cnorm2 z2' <= 2 * Cnorm2 z2.
Proof.
  intros HA HTs Hk.
  set (g := weight (bin_frequency (List.length rows) Ts k)).
  exists (filtered rows Ts), (Cscale g z0), (Cscale g z1), (Cscale g z2).
  split; [now apply filter_run|].
  split; [now rewrite (nth_error_filtered _ _ _ _ Hk)|].
  pose proof (weight_sqr_le_2 _ (bin_frequency_ge_0 (List.length rows) Ts k HTs)) as Hg.
  fold g in Hg. rewrite !Cnorm2_scale.
  pose proof (Cnorm2_nonneg z0). pose proof (Cnorm2_nonneg z1).
  pose proof (Cnorm2_nonneg z2).
  assert (0 <= g * g) by nra. repeat split; nra.
Qed.

Lemma filter_gain_bounded_witness :
  let rows := [((1, 0), (0, 1), (2, 2)); ((3, 0), (0, 0), (1, 1))] in
  let w := mkWorld [Complex2D rows] [] in
  exists rows' z0' z1' z2',
    _filter 0%nat 0.01 w =
      (mkWorld (update (objs w) 0%nat (Complex2D rows')) (calls w), Returns tt) /\
    nth_error rows' 1 = Some (z0', z1', z2') /\
    Cnorm2 z0' <= 2 * Cnorm2 (3, 0) /\
    Cnorm2 z1' <= 2 * Cnorm2 (0, 0) /\
    Cnorm2 z2' <= 2 * Cnorm2 (1, 1).
Proof.
  cbv zeta.
  exact (filter_gain_bounded
           (mkWorld [Complex2D [((1, 0), (0, 1), (2, 2)); ((3, 0), (0, 0), (1, 1))]] [])
           0%nat _ 0.01 1%nat (3, 0) (0, 0) (1, 1) eq_refl ltac:(lra) eq_refl).
Defined.


Lemma length_spectrum_add rows1 rows2 :
  List.length rows1 = List.length rows2 ->
  List.length (spectrum_add rows1 rows2) = List.length rows1.
Proof.
  intros H. unfold spectrum_add. rewrite length_map, length_combine. lia.
Qed.

Lemma scale_row_add g r s :
  scale_row g (row_add r s) = row_add (scale_row g r) (scale_row g s).
Proof.
  destruct r as [[[a0 b0] [a1 b1]] [a2 b2]], s as [[[c0 d0] [c1 d1]] [c2 d2]].
  unfold scale_row, row_add, Cscale, Cadd. simpl. components; ring.
Qed.

Lemma scaled_spectrum_add (g : nat -> R) rows1 rows2 s :
  List.length rows1 = List.length rows2 ->
  map (fun p => scale_row (g (snd p)) (fst p))
    (combine (spectrum_add rows1 rows2) (seq s (List.length rows1))) =
  spectrum_add
    (map (fun p => scale_row (g (snd p)) (fst p))
       (combine rows1 (seq s (List.length rows1))))
    (map (fun p => scale_row (g (snd p)) (fst p))
       (combine rows2 (seq s (List.length rows1)))).
Proof.
  revert rows2 s. induction rows1 as [|r rows1 IH]; intros [|r2 rows2] s H;
    simpl in H; try lia; [reflexivity|].
  unfold spectrum_add in *. simpl. rewrite scale_row_add. f_equal.
  apply IH. lia.
Qed.

Lemma filtered_add rows1 rows2 Ts :
  List.length rows1 = List.length rows2 ->
  filtered (spectrum_add rows1 rows2) Ts =
  spectrum_add (filtered rows1 Ts) (filtered rows2 Ts).
Proof.
  intros H. unfold filtered. rewrite (length_spectrum_add _ _ H), <- H.
  now apply (scaled_spectrum_add
               (fun k => weight (bin_frequency (List.length rows1) Ts k))).
Qed.

(** X10.  The filter is additive: filtering the bin-by-bin sum of two
    spectra of one length leaves the sum of the two filtered spectra. *)
Theorem filter_additive
    (w1 w2 w3 : world) (A1 A2 A3 : ref) (rows1 rows2 : list (C * C * C)) (Ts : R) :
  List.length rows1 = List.length rows2 ->
  nth_error (objs w1) A1 = Some (Complex2D rows1) ->
  nth_error (objs w2) A2 = Some (Complex2D rows2) ->
  nth_error (objs w3) A3 = Some (Complex2D (spectrum_add rows1 rows2)) ->
  exists out1 out2,
    _filter A1 Ts w1 =
      (mkWorld (update (objs w1) A1 (Complex2D out1)) (calls w1), Returns tt) /\
    _filter A2 Ts w2 =
      (mkWorld (update (objs w2) A2 (Complex2D out2)) (calls w2), Returns tt) /\
    _filter A3 Ts w3 =
      (mkWorld (update (objs w3) A3 (Complex2D (spectrum_add out1 out2)))
         (calls w3),
       Returns tt).
Proof.
  intros Hlen H1 H2 H3.
  exists (filtered rows1 Ts), (filtered rows2 Ts).
  rewrite (filter_run A1 Ts rows1 w1 H1), (filter_run A2 Ts rows2 w2 H2),
    (filter_run A3 Ts _ w3 H3), (filtered_add _ _ Ts Hlen).
  auto.
Qed.

Lemma filter_additive_witness :
  let rows1 := [((1, 0), (0, 1), (2, 2)); ((3, 0), (0, 0), (1, 1))] in
  let rows2 := [((0, 1), (1, 1), (0, 0)); ((1, 2), (3, 4), (5, 6))] in
  let w := mkWorld [Complex2D rows1; Complex2D rows2;
                    Complex2D (spectrum_add rows1 rows2)] [] in
  exists out1 out2,
    _filter 0%nat 0.01 w =
      (mkWorld (update (objs w) 0%nat (Complex2D out1)) (calls w), Returns tt) /\
    _filter 1%nat 0.01 w =
      (mkWorld (update (objs w) 1%nat (Complex2D out2)) (calls w), Returns tt) /\
    _filter 2%nat 0.01 w =
      (mkWorld (update (objs w) 2%nat (Complex2D (spectrum_add out1 out2)))
         (calls w),
       Returns tt).
Proof.
  intros rows1 rows2 w.
  exact (filter_additive w w w 0%nat 1%nat 2%nat rows1 rows2
           0.01 eq_refl eq_refl eq_refl eq_refl).
Defined.

(** ** The intensity *)

Lemma np_rint_monotone x y : x <= y -> np_rint x <= np_rint y.
Proof.
  intros Hxy. destruct (Req_dec x y) as [->|Hne]; [lra|].
  destruct (np_rint_spec x) as (n & -> & Hn & _).
  destruct (np_rint_spec y) as (m & -> & Hm & _).
  apply Rabs_le_bounds in Hn. apply Rabs_le_bounds in Hm.
  apply IZR_le. destruct (Z_le_gt_dec n m) as [|Hgt]; [assumption|].
  exfalso. assert (H1 : IZR (m + 1) <= IZR n) by (apply IZR_le; lia).
  rewrite plus_IZR in H1. lra.
Qed.

Lemma np_floor_monotone x y : x <= y -> np_floor x <= np_floor y.
Proof. intros H. unfold np_floor. apply IZR_le, Zfloor_le, H. Qed.

Lemma np_log10_monotone x y : 0 < x -> x <= y -> np_log10 x <= np_log10 y.
Proof.
  intros Hx Hxy. unfold np_log10.
  assert (0 < ln 10) by (rewrite <- ln_1; apply ln_increasing; lra).
  apply Rmult_le_compat_r; [apply Rlt_le, Rinv_0_lt_compat; assumption|].
  destruct (Req_dec x y) as [->|Hne]; [lra|].
  apply Rlt_le, ln_increasing; lra.
Qed.

Lemma intensity_formula_monotone x y :
  x <= y ->
  np_floor (np_round x 2 * 10) / 10 <= np_floor (np_round y 2 * 10) / 10.
Proof.
  intros H.
  assert (np_round x 2 <= np_round y 2).
  { unfold np_round. apply Rmult_le_compat_r; [simpl; lra|].
    apply np_rint_monotone. apply Rmult_le_compat_r; [simpl; lra|assumption]. }
  apply Rmult_le_compat_r; [lra|]. apply np_floor_monotone. lra.
Qed.

Lemma intensity_formula_bounds x :
  x - 0.105 < np_floor (np_round x 2 * 10) / 10 <= x + 0.005.
Proof.
  destruct (np_round_spec x 2) as (n & Hr & Hn & _).
  apply Rabs_le_bounds in Hn.
  pose proof (Zfloor_bound (np_round x 2 * 10)) as [Hlo Hhi].
  unfold np_floor. rewrite Hr in *. simpl pow in *. lra.
Qed.

Section IntensityOfRun.

Variable rfft : list (R * R * R) -> option (list (C * C * C)).
Variable irfft : list (C * C * C) -> option (list (R * R * R)).

(** X11.  The intensity [getShindo] returns lies close to the raw value
    [2 * log10(aval) + 0.94] of the a-value found: above it by at most
    0.005, because of the rounding to two decimals before the floor, and
    below it by less than 0.105. *)
Theorem getShindo_intensity_near_raw
    (fuel : nat) (a : ref) (Ts : R) (w w' : world) (I : R) :
  getShindo rfft irfft fuel a Ts w = (w', Returns I) ->
  exists afil aval,
    nth_error (objs w') (List.length (objs w) + 1) = Some (Float2D afil) /\
    _search_aval fuel (np_sqrt (np_sum_axis1 (np_square afil))) Ts = Some aval /\
    0 < aval /\
    2 * np_log10 aval + 0.94 - 0.105 < I <= 2 * np_log10 aval + 0.94 + 0.005.
Proof.
  intros Hrun.
  destruct (getShindo_returns_inv rfft irfft _ _ _ _ _ _ Hrun)
    as (rows & spectrum & afil & aval & Ha & Hr & Hi & Hs & ->).
  exists afil, aval. split.
  { rewrite (getShindo_run rfft irfft fuel a Ts w rows Ha), Hr in Hrun.
    cbv zeta in Hrun. rewrite Hi, Hs in Hrun. injection Hrun as <-.
    cbn [objs]. rewrite nth_error_app1.
    - rewrite Nat.add_1_r.
      replace (S (List.length (objs w)))
        with (List.length (objs w ++ [Complex2D (filtered spectrum Ts)]))
        by (rewrite length_app; simpl; lia).
      apply nth_error_snoc.
    - rewrite !length_app. simpl. lia. }
  split; [assumption|]. split.
  - unfold _search_aval in Hs. eapply search_loop_positive; [|exact Hs]. lra.
  - apply intensity_formula_bounds.
Qed.

(** X12.  The intensity grows with the a-value: of two runs of
    [getShindo] whose searches return [aval1 <= aval2], the second
    returns an intensity that is at least the first's. *)
Theorem getShindo_intensity_monotone
    (fuel1 fuel2 : nat) (a1 a2 : ref) (Ts1 Ts2 : R) (w1 w2 : world)
    (rows1 rows2 : list (R * R * R)) (spectrum1 spectrum2 : list (C * C * C))
    (afil1 afil2 : list (R * R * R)) (aval1 aval2 : R) :
  nth_error (objs w1) a1 = Some (Float2D rows1) ->
  nth_error (objs w2) a2 = Some (Float2D rows2) ->
  rfft rows1 = Some spectrum1 ->
  rfft rows2 = Some spectrum2 ->
  irfft (filtered spectrum1 Ts1) = Some afil1 ->
  irfft (filtered spectrum2 Ts2) = Some afil2 ->
  _search_aval fuel1 (np_sqrt (np_sum_axis1 (np_square afil1))) Ts1 = Some aval1 ->
  _search_aval fuel2 (np_sqrt (np_sum_axis1 (np_square afil2))) Ts2 = Some aval2 ->
  aval1 <= aval2 ->
  exists I1 I2,
    snd (getShindo rfft irfft fuel1 a1 Ts1 w1) = Returns I1 /\
    snd (getShindo rfft irfft fuel2 a2 Ts2 w2) = Returns I2 /\
    I1 <= I2.
Proof.
  intros Ha1 Ha2 Hr1 Hr2 Hi1 Hi2 Hs1 Hs2 Hle.
  rewrite (getShindo_run rfft irfft fuel1 a1 Ts1 w1 rows1 Ha1), Hr1.
  rewrite (getShindo_run rfft irfft fuel2 a2 Ts2 w2 rows2 Ha2), Hr2.
  cbv zeta. rewrite Hi1, Hi2, Hs1, Hs2. cbn [snd].
  eexists. eexists. split; [reflexivity|]. split; [reflexivity|].
  apply intensity_formula_monotone.
  assert (0 < aval1).
  { unfold _search_aval in Hs1. eapply search_loop_positive; [|exact Hs1]. lra. }
  pose proof (np_log10_monotone aval1 aval2 H Hle). lra.
Qed.

End IntensityOfRun.


Lemma weight_five_thirds_range : 1 / 2 <= weight (5 / 3) < 1.
Proof.
  pose proof (weight_nonneg (5 / 3)) as H0.
  pose proof (weight_sqr (5 / 3) ltac:(lra)) as Hsq.
  assert (Hc : 0.9 <= 1 - exp (- (5 / 3 / 0.5) ^ 3)).
  { rewrite exp_Ropp.
    pose proof (exp_ineq1_le ((5 / 3 / 0.5) ^ 3)) as He.
    assert (Hy : 9 <= (5 / 3 / 0.5) ^ 3) by (simpl; lra).
    assert (Hi : / exp ((5 / 3 / 0.5) ^ 3) <= / 10)
      by (apply Rinv_le_contravar; lra).
    lra. }
  pose proof (lc_arg_ge_0 (5 / 3) ltac:(lra)) as Hc1.
  assert (Hb : 1 <= hc_poly (5 / 3 / 10) <= 1.25).
  { split; [apply hc_poly_ge_1|]. unfold hc_poly. simpl. lra. }
  set (c := 1 - exp _) in *. set (b := hc_poly _) in *.
  assert (Ha : 0.5 <= 1 / (5 / 3 + 0.0001) <= 0.6).
  { replace (1 / (5 / 3 + 0.0001)) with (/ (5 / 3 + 0.0001)) by lra.
    split.
    - replace 0.5 with (/ 2) by lra. apply Rinv_le_contravar; lra.
    - replace 0.6 with (/ (5 / 3)) by lra. apply Rinv_le_contravar; lra. }
  assert (Hib : 0.8 <= / b <= 1).
  { split.
    - replace 0.8 with (/ 1.25) by lra. apply Rinv_le_contravar; lra.
    - rewrite <- Rinv_1. apply Rinv_le_contravar; lra. }
  unfold Rdiv in Hsq. fold (1 / (5 / 3 + 0.0001)) in Hsq.
  set (a := 1 / _) in *. set (ib := / b) in *.
  assert (Hac : 0.45 <= a * c <= 0.6) by nra.
  assert (Hw : 0.36 <= weight (5 / 3) * weight (5 / 3) <= 0.6) by nra.
  split.
  - destruct (Rle_dec (1 / 2) (weight (5 / 3))) as [|Hn]; [assumption|].
    exfalso. nra.
  - destruct (Rlt_dec (weight (5 / 3)) 1) as [|Hn]; [assumption|].
    exfalso. nra.
Qed.

Lemma search_aval_two_medium m0 m1 :
  1000 <= m0 < 2000 -> 1000 <= m1 < 2000 ->
  _search_aval 2 [m0; m1] 0.15 = Some 1000.
Proof.
  intros H0 H1. unfold _search_aval. do 2 search_pass. f_equal. lra.
Qed.

Lemma sqrt_sum_single e0 : sqrt (e0 ^ 2 + 0 ^ 2 + 0 ^ 2) = Rabs e0.
Proof.
  replace (e0 ^ 2 + 0 ^ 2 + 0 ^ 2) with (e0 ^ 2) by (simpl; lra).
  rewrite <- (pow2_abs e0), sqrt_pow2; [reflexivity|apply Rabs_pos].
Qed.

(** Two samples of 2000 gal and -2000 gal, 0.15 s apart: the filtered
    magnitudes are between 1000 and 2000 gal, and the search accepts 1000
    gal on its second pass. *)
Lemma two_small_samples_stages :
  exists spectrum afil,
    numpy_rfft [(2000, 0, 0); (-2000, 0, 0)] = Some spectrum /\
    numpy_irfft (filtered spectrum 0.15) = Some afil /\
    _search_aval 2 (np_sqrt (np_sum_axis1 (np_square afil))) 0.15 = Some 1000.
Proof.
  eexists. eexists. split; [apply numpy_rfft_two|].
  unfold filtered. cbn [List.length seq combine map fst snd scale_row].
  unfold Cscale. cbn [fst snd].
  split; [apply numpy_irfft_two|]. cbn [fst snd].
  unfold np_square, np_sum_axis1, np_sqrt. cbn [map].
  replace (bin_frequency 2 0.15 1) with (5 / 3)
    by (unfold bin_frequency; simpl; lra).
  pose proof weight_five_thirds_range as HW.
  set (W0 := weight (bin_frequency 2 0.15 0)).
  set (W1 := weight (5 / 3)) in *.
  replace ((W0 * (0 + 0) + W1 * (0 - 0)) / 2) with 0 by lra.
  replace ((W0 * (0 + 0) - W1 * (0 - 0)) / 2) with 0 by lra.
  rewrite !sqrt_sum_single.
  replace ((W0 * (2000 + -2000) + W1 * (2000 - -2000)) / 2)
    with (W1 * 2000) by lra.
  replace ((W0 * (2000 + -2000) - W1 * (2000 - -2000)) / 2)
    with (- (W1 * 2000)) by lra.
  rewrite Rabs_Ropp, Rabs_pos_eq by nra.
  apply search_aval_two_medium; nra.
Qed.


Lemma getShindo_intensity_near_raw_witness :
  exists aval,
    0 < aval /\
    2 * np_log10 aval + 0.94 - 0.105 < 7.5 <= 2 * np_log10 aval + 0.94 + 0.005.
Proof.
  pose proof getShindo_two_samples as Hout.
  destruct (getShindo numpy_rfft numpy_irfft 1 0%nat 0.15
              (mkWorld [Float2D [(20000, 0, 0); (-20000, 0, 0)]] []))
    as [w' out] eqn:Erun.
  cbn [snd] in Hout. rewrite Hout in Erun.
  destruct (getShindo_intensity_near_raw numpy_rfft numpy_irfft
              1 0%nat 0.15 _ w' 7.5 Erun)
    as (afil & aval & _ & _ & Hpos & Hnear).
  exists aval. split; assumption.
Defined.

Lemma getShindo_intensity_monotone_witness :
  exists I1 I2,
    snd (getShindo numpy_rfft numpy_irfft 2 0%nat 0.15
           (mkWorld [Float2D [(2000, 0, 0); (-2000, 0, 0)]] [])) = Returns I1 /\
    snd (getShindo numpy_rfft numpy_irfft 1 0%nat 0.15
           (mkWorld [Float2D [(20000, 0, 0); (-20000, 0, 0)]] [])) = Returns I2 /\
    I1 <= I2.
Proof.
  destruct two_small_samples_stages as (s1 & f1 & Hr1 & Hi1 & Hs1).
  destruct two_samples_stages as (s2 & f2 & Hr2 & Hi2 & Hs2).
  exact (getShindo_intensity_monotone numpy_rfft numpy_irfft
           2 1 0%nat 0%nat 0.15 0.15
           (mkWorld [Float2D [(2000, 0, 0); (-2000, 0, 0)]] [])
           (mkWorld [Float2D [(20000, 0, 0); (-20000, 0, 0)]] [])
           _ _ s1 s2 f1 f2 1000 2000.0
           eq_refl eq_refl Hr1 Hr2 Hi1 Hi2 Hs1 Hs2 ltac:(lra)).
Defined.

(** ** The length of the record *)

Lemma length_column {T} c (rows : list (T * T * T)) :
  List.length (column c rows) = List.length rows.
Proof. unfold column. apply length_map. Qed.

Lemma length_columns {T} (c0 c1 c2 : list T) n :
  List.length c0 = n -> List.length c1 = n -> List.length c2 = n ->
  List.length (columns c0 c1 c2) = n.
Proof.
  intros H0 H1 H2. unfold columns.
  rewrite length_map, !length_combine. lia.
Qed.

Lemma length_rfft_1d xs : List.length (rfft_1d xs) = (List.length xs / 2 + 1)%nat.
Proof. unfold rfft_1d. now rewrite length_map, length_seq. Qed.

Lemma length_irfft_1d Xs : List.length (irfft_1d Xs) = (2 * (List.length Xs - 1))%nat.
Proof. unfold irfft_1d. now rewrite length_map, length_seq. Qed.

Lemma numpy_rfft_bins rows spectrum :
  numpy_rfft rows = Some spectrum ->
  List.length spectrum = (List.length rows / 2 + 1)%nat.
Proof.
  unfold numpy_rfft. destruct rows as [|r rows]; [discriminate|].
  generalize (r :: rows). intros rs H. injection H as <-.
  apply length_columns; now rewrite length_rfft_1d, length_column.
Qed.

Lemma numpy_irfft_samples spectrum samples :
  numpy_irfft spectrum = Some samples ->
  List.length samples = (2 * (List.length spectrum - 1))%nat.
Proof.
  unfold numpy_irfft. destruct (_ <=? _)%nat; [discriminate|].
  intros H. injection H as <-.
  apply length_columns; now rewrite length_irfft_1d, length_column.
Qed.

Lemma numpy_irfft_one_bin spectrum :
  (List.length spectrum <= 1)%nat -> numpy_irfft spectrum = None.
Proof.
  intros H. unfold numpy_irfft.
  now replace (_ <=? _)%nat with true by (symmetry; apply Nat.leb_le; exact H).
Qed.

Lemma numpy_irfft_more_bins spectrum :
  (1 < List.length spectrum)%nat -> exists samples, numpy_irfft spectrum = Some samples.
Proof.
  intros H. unfold numpy_irfft.
  replace (_ <=? _)%nat with false by (symmetry; apply Nat.leb_gt; exact H).
  eexists. reflexivity.
Qed.

Lemma length_magnitudes afil :
  List.length (np_sqrt (np_sum_axis1 (np_square afil))) = List.length afil.
Proof. unfold np_sqrt, np_sum_axis1, np_square. now rewrite !length_map. Qed.

Section TransformShapes.

Variable rfft : list (R * R * R) -> option (list (C * C * C)).
Variable irfft : list (C * C * C) -> option (list (R * R * R)).

(** The shapes numpy documents: [n] samples give [n/2 + 1] bins, and [m]
    bins give [2 (m - 1)] samples, which numpy refuses when it is zero. *)
Hypothesis rfft_bins :
  forall rows spectrum,
    rfft rows = Some spectrum ->
    List.length spectrum = (List.length rows / 2 + 1)%nat.
Hypothesis irfft_samples :
  forall spectrum samples,
    irfft spectrum = Some samples ->
    List.length samples = (2 * (List.length spectrum - 1))%nat.
Hypothesis irfft_one_bin :
  forall spectrum, (List.length spectrum <= 1)%nat -> irfft spectrum = None.

(** X13.  With transforms of numpy's shapes, the series the search works
    on has [2 * (N / 2)] samples for a record of [N]: a record of odd
    length loses one sample, since the inverse transform is called without
    the length of the record. *)
Theorem getShindo_magnitudes_length
    (fuel : nat) (a : ref) (Ts : R) (w : world) (rows : list (R * R * R))
    (magnitudes : list R) :
  nth_error (objs w) a = Some (Float2D rows) ->
  nth_error (objs (fst (getShindo rfft irfft fuel a Ts w)))
    (List.length (objs w) + 2) = Some (Float1D magnitudes) ->
  List.length magnitudes = (2 * (List.length rows / 2))%nat.
Proof.
  intros Ha. rewrite (getShindo_run rfft irfft fuel a Ts w rows Ha).
  destruct (rfft rows) as [spectrum|] eqn:Hr.
  - cbv zeta. destruct (irfft _) as [afil|] eqn:Hi.
    + intros H.
      assert (E : Float1D (np_sqrt (np_sum_axis1 (np_square afil))) =
                  Float1D magnitudes).
      { destruct (_search_aval _ _ _); cbn [fst objs] in H;
          rewrite <- !app_assoc in H; simpl app in H;
          rewrite nth_error_app2 in H by lia;
          replace (_ + 2 - _)%nat with 2%nat in H by lia;
          simpl in H; congruence. }
      injection E as <-.
      rewrite length_magnitudes, (irfft_samples _ _ Hi), length_filtered,
        (rfft_bins _ _ Hr). lia.
    + cbn [fst objs]. intros H. exfalso.
      assert (Hlt : (List.length (objs w) + 2 <
                     List.length (objs w ++ [Complex2D (filtered spectrum Ts)]))%nat)
        by (apply nth_error_Some; congruence).
      rewrite length_app in Hlt. simpl in Hlt. lia.
  - cbn [fst objs]. intros H. exfalso.
    assert (Hlt : (List.length (objs w) + 2 < List.length (objs w))%nat)
      by (apply nth_error_Some; congruence).
    lia.
Qed.

(** X14.  With transforms of numpy's shapes, a record of fewer than two
    samples always ends in [ValueError], whatever the sampling period: if
    the forward transform does not raise, the inverse transform is asked
    for zero samples and does. *)
Theorem getShindo_too_few_samples
    (fuel : nat) (a : ref) (Ts : R) (w : world) (rows : list (R * R * R)) :
  nth_error (objs w) a = Some (Float2D rows) ->
  (List.length rows <= 1)%nat ->
  snd (getShindo rfft irfft fuel a Ts w) = Raises ValueError.
Proof.
  intros Ha Hlen. rewrite (getShindo_run rfft irfft fuel a Ts w rows Ha).
  destruct (rfft rows) as [spectrum|] eqn:Hr; [|reflexivity].
  cbv zeta. rewrite irfft_one_bin; [reflexivity|].
  rewrite length_filtered, (rfft_bins _ _ Hr).
  destruct rows as [|r [|r' rows]]; simpl in *; lia.
Qed.

End TransformShapes.

Lemma getShindo_too_few_samples_witness :
  let w := mkWorld [Float2D [(3, 4, 5)]] [] in
  nth_error (objs w) 0 = Some (Float2D [(3, 4, 5)]) /\
  (List.length [(3, 4, 5)] <= 1)%nat /\
  snd (getShindo numpy_rfft numpy_irfft 10 0%nat 0.01 w) = Raises ValueError.
Proof.
  intros w. split; [reflexivity|]. split; [apply le_n|].
  exact (getShindo_too_few_samples numpy_rfft numpy_irfft
           numpy_rfft_bins numpy_irfft_one_bin
           10 0%nat 0.01 w [(3, 4, 5)] eq_refl (le_n 1)).
Defined.

Lemma getShindo_magnitudes_length_witness :
  let rows := [(1, 0, 0); (2, 0, 0); (3, 0, 0)] in
  let w := mkWorld [Float2D rows] [] in
  exists magnitudes,
    nth_error (objs (fst (getShindo numpy_rfft numpy_irfft 1 0%nat 0.1 w))) 3 =
      Some (Float1D magnitudes) /\
    List.length magnitudes = 2%nat.
Proof.
  intros rows w.
  assert (Hrun : exists magnitudes,
             nth_error (objs (fst (getShindo numpy_rfft numpy_irfft 1 0%nat 0.1 w))) 3 =
             Some (Float1D magnitudes)).
  { rewrite (getShindo_run numpy_rfft numpy_irfft 1 0%nat 0.1 w rows eq_refl).
    destruct (numpy_rfft rows) as [spectrum|] eqn:Hr; [|discriminate].
    cbv zeta.
    destruct (numpy_irfft_more_bins (filtered spectrum 0.1)) as [afil Hi].
    { rewrite length_filtered, (numpy_rfft_bins _ _ Hr). simpl. lia. }
    rewrite Hi. eexists.
    destruct (_search_aval _ _ _); reflexivity. }
  destruct Hrun as [magnitudes Hm]. exists magnitudes. split; [exact Hm|].
  exact (getShindo_magnitudes_length numpy_rfft numpy_irfft
           numpy_rfft_bins numpy_irfft_samples
           1 0%nat 0.1 w rows magnitudes eq_refl Hm).
Defined.


(** ** The test bench *)








(** ** The sign of the record *)

Lemma length_neg_spectrum s : List.length (neg_spectrum s) = List.length s.
Proof. apply length_map. Qed.

Lemma filtered_neg s Ts :
  filtered (neg_spectrum s) Ts = neg_spectrum (filtered s Ts).
Proof.
  unfold filtered. rewrite length_neg_spectrum.
  generalize (List.length s) at 1 3 as M. generalize 0%nat as k.
  unfold neg_spectrum.
  induction s as [|[[z0 z1] z2] s IH]; intros k M; [reflexivity|].
  cbn [List.length seq map combine fst snd]. f_equal; [|apply IH].
  unfold scale_row, Cscale, Cneg. cbn [fst snd]. components; ring.
Qed.

Lemma magnitudes_neg afil :
  np_sqrt (np_sum_axis1 (np_square (neg_samples afil))) =
  np_sqrt (np_sum_axis1 (np_square afil)).
Proof.
  unfold np_sqrt, np_sum_axis1, np_square, neg_samples.
  rewrite !map_map. apply map_ext. intros [[x y] z]. f_equal. ring.
Qed.

Section SignOfTheRecord.

Variable rfft : list (R * R * R) -> option (list (C * C * C)).
Variable irfft : list (C * C * C) -> option (list (R * R * R)).

(** Both transforms are linear; of that, only this is used: they commute
    with a change of sign. *)
Hypothesis rfft_neg :
  forall rows, rfft (neg_samples rows) = option_map neg_spectrum (rfft rows).
Hypothesis irfft_neg :
  forall spectrum,
    irfft (neg_spectrum spectrum) = option_map neg_samples (irfft spectrum).

(** X16.  [getShindo] does not depend on the sign of the record: with
    transforms that commute with a change of sign, the record with every
    sample negated gives the same outcome, be it an intensity, an error or
    a search that is still running. *)
Theorem getShindo_sign_invariant
    (fuel : nat) (a1 a2 : ref) (Ts : R) (w1 w2 : world)
    (rows : list (R * R * R)) :
  nth_error (objs w1) a1 = Some (Float2D rows) ->
  nth_error (objs w2) a2 = Some (Float2D (neg_samples rows)) ->
  snd (getShindo rfft irfft fuel a2 Ts w2) =
  snd (getShindo rfft irfft fuel a1 Ts w1).
Proof.
  intros H1 H2.
  rewrite (getShindo_run rfft irfft fuel a1 Ts w1 rows H1).
  rewrite (getShindo_run rfft irfft fuel a2 Ts w2 _ H2).
  rewrite rfft_neg. destruct (rfft rows) as [spectrum|]; [|reflexivity].
  cbv zeta. cbn [option_map]. rewrite filtered_neg, irfft_neg.
  destruct (irfft (filtered spectrum Ts)) as [afil|]; [|reflexivity].
  cbn [option_map]. rewrite magnitudes_neg.
  destruct (_search_aval _ _ _); reflexivity.
Qed.

End SignOfTheRecord.

(** numpy's transforms commute with a change of sign. *)

Lemma Cmul_neg x c : Cmul (C_of_R (- x)) c = Cneg (Cmul (C_of_R x) c).
Proof. unfold Cmul, C_of_R, Cneg. cbn [fst snd]. components; ring. Qed.

Lemma Csum_neg zs : Csum (map Cneg zs) = Cneg (Csum zs).
Proof.
  unfold Csum. induction zs as [|z zs IH]; cbn [map fold_right].
  - unfold Cneg. cbn [fst snd]. components; ring.
  - rewrite IH. unfold Cadd, Cneg. cbn [fst snd]. components; ring.
Qed.

Lemma dft_bin_neg xs k : dft_bin (map Ropp xs) k = Cneg (dft_bin xs k).
Proof.
  unfold dft_bin. rewrite length_map, <- Csum_neg, map_map. f_equal.
  generalize (seq 0 (List.length xs)) as ns. generalize (INR (List.length xs)) as n.
  induction xs as [|x xs IH]; intros n [|j ns]; try reflexivity.
  cbn [map combine fst snd]. rewrite Cmul_neg. f_equal. apply IH.
Qed.

Lemma rfft_1d_neg xs : rfft_1d (map Ropp xs) = map Cneg (rfft_1d xs).
Proof.
  unfold rfft_1d. rewrite length_map, map_map. apply map_ext.
  intros k. apply dft_bin_neg.
Qed.

Lemma irfft_term_neg n m j k X :
  irfft_term n m j (k, Cneg X) = - irfft_term n m j (k, X).
Proof.
  unfold irfft_term, Cneg. cbn [fst snd].
  destruct (_ || _); ring.
Qed.

Lemma irfft_1d_neg Xs : irfft_1d (map Cneg Xs) = map Ropp (irfft_1d Xs).
Proof.
  unfold irfft_1d. rewrite length_map, map_map. apply map_ext. intros j.
  set (m := List.length Xs). set (n := (2 * (m - 1))%nat).
  assert (E : fold_right Rplus 0
                (map (irfft_term n m j) (combine (seq 0 m) (map Cneg Xs))) =
              - fold_right Rplus 0
                  (map (irfft_term n m j) (combine (seq 0 m) Xs))).
  { generalize (seq 0 m) as ks. clearbody m n.
    induction Xs as [|X Xs IH]; intros [|k ks]; cbn [map combine fold_right];
      try ring.
    rewrite irfft_term_neg, IH. ring. }
  rewrite E. unfold Rdiv. ring.
Qed.

Lemma column_neg_samples c rows :
  column c (neg_samples rows) = map Ropp (column c rows).
Proof.
  unfold column, neg_samples. rewrite !map_map. apply map_ext.
  intros [[x y] z]. destruct c as [|[|c]]; reflexivity.
Qed.

Lemma column_neg_spectrum c rows :
  column c (neg_spectrum rows) = map Cneg (column c rows).
Proof.
  unfold column, neg_spectrum. rewrite !map_map. apply map_ext.
  intros [[x y] z]. destruct c as [|[|c]]; reflexivity.
Qed.

Lemma columns_Cneg c0 c1 c2 :
  columns (map Cneg c0) (map Cneg c1) (map Cneg c2) =
  neg_spectrum (columns c0 c1 c2).
Proof.
  unfold columns, neg_spectrum. rewrite map_map.
  revert c1 c2. induction c0 as [|x c0 IH]; intros [|y c1] [|z c2];
    try reflexivity.
  cbn [map combine fst snd]. f_equal. apply IH.
Qed.

Lemma columns_Ropp c0 c1 c2 :
  columns (map Ropp c0) (map Ropp c1) (map Ropp c2) =
  neg_samples (columns c0 c1 c2).
Proof.
  unfold columns, neg_samples. rewrite map_map.
  revert c1 c2. induction c0 as [|x c0 IH]; intros [|y c1] [|z c2];
    try reflexivity.
  cbn [map combine fst snd]. f_equal. apply IH.
Qed.

Lemma numpy_rfft_neg rows :
  numpy_rfft (neg_samples rows) = option_map neg_spectrum (numpy_rfft rows).
Proof.
  destruct rows as [|row rows]; [reflexivity|].
  transitivity
    (Some (columns (rfft_1d (column 0 (neg_samples (row :: rows))))
             (rfft_1d (column 1 (neg_samples (row :: rows))))
             (rfft_1d (column 2 (neg_samples (row :: rows)))))).
  - reflexivity.
  - rewrite !column_neg_samples, !rfft_1d_neg, columns_Cneg. reflexivity.
Qed.

Lemma numpy_irfft_neg spectrum :
  numpy_irfft (neg_spectrum spectrum) =
  option_map neg_samples (numpy_irfft spectrum).
Proof.
  unfold numpy_irfft. rewrite length_neg_spectrum.
  destruct (_ <=? _)%nat; [reflexivity|]. cbn [option_map].
  rewrite !column_neg_spectrum, !irfft_1d_neg, columns_Ropp. reflexivity.
Qed.

Lemma getShindo_sign_invariant_witness :
  let rows := [(-20000, 0, 0); (20000, 0, 0)] in
  let w1 := mkWorld [Float2D rows] [] in
  let w2 := mkWorld [Float2D (neg_samples rows)] [] in
  snd (getShindo numpy_rfft numpy_irfft 1 0%nat 0.15 w2) =
  snd (getShindo numpy_rfft numpy_irfft 1 0%nat 0.15 w1).
Proof.
  intros rows w1 w2.
  exact (getShindo_sign_invariant numpy_rfft numpy_irfft
           numpy_rfft_neg numpy_irfft_neg 1 0%nat 0%nat 0.15 w1 w2 rows
           eq_refl eq_refl).
Defined.

